(** * fast-near: the view-call host runtime and its worker pool

    A shallow embedding of [worker.js] (the host functions a guest
    WebAssembly module links against, and [runWASM]) and of
    [worker-pool.js] (the [WorkerPool] class), followed by the properties
    of the specification that were checked against them.

    Conventions.
    - Guest linear memory, buffers and registers are [list byte].
    - A JavaScript string is a Rocq [string] holding its UTF-8 bytes, so
      [Buffer.from(str)] is [list_byte_of_string]. The text decoders of
      [Buffer.toString] are a parameter ([Js.Platform]).
    - A 64-bit WebAssembly integer reaches a host function as a BigInt; it
      is a [Z] here. [Number(bigint)] is written out with its rounding.
    - A host function is a state transformer that ends normally, throws or
      never returns ([Js.Completion]). The guest is the tree of its
      interactions with the host ([Worker.Guest]).
    - The pool is a state machine: one function per method or handler of
      the source, and an event type for what the Node.js event loop
      delivers. Promises, timers and workers are named by numbers.
    - Calls of [debug] write to a diagnostic channel and are left out. *)

From Stdlib Require Import ZArith Lia Strings.Byte Strings.Ascii.
From stdpp Require Import gmap strings list pretty.

Open Scope Z_scope.

(** ** The JavaScript platform operations the two files use *)

Module Js.

Inductive ErrorClass := Error | TypeError | RangeError | RuntimeError | LinkError.

Record Exception := mkException {
  err_class : ErrorClass;
  err_message : string
}.

(** How an evaluation ends: with a value, with a thrown exception, or
    not at all. *)
Inductive Completion (A : Type) :=
| Normal (a : A)
| Throw (e : Exception)
| Diverge.
Arguments Normal {A} a.
Arguments Throw {A} e.
Arguments Diverge {A}.

(** The values that reach [Buffer.from] and the property reads of the
    context object. *)
Inductive Value :=
| JsUndefined
| JsNumber (n : Z)
| JsString (s : string)
| JsBytes (b : list byte)          (* Buffer, Uint8Array *)
| JsNumbers (l : list Z)           (* array of numbers, as in [[]] *)
| JsStrings (l : list string)      (* array of strings *)
| JsMemory (b : list byte).        (* WebAssembly.Memory *)

(** Character encodings of Node's Buffer, and the names it accepts for
    them (lower case). Any other name is unknown. *)
Inductive Encoding := Utf8 | Utf16le | Latin1 | Base64 | Base64url | Hex | Ascii.

Definition encoding_names : list (string * Encoding) :=
  [ ("utf8", Utf8); ("utf-8", Utf8);
    ("ucs2", Utf16le); ("ucs-2", Utf16le);
    ("utf16le", Utf16le); ("utf-16le", Utf16le);
    ("latin1", Latin1); ("binary", Latin1);
    ("base64", Base64); ("base64url", Base64url);
    ("hex", Hex); ("ascii", Ascii) ].

Fixpoint assoc {A} (name : string) (table : list (string * A)) : option A :=
  match table with
  | [] => None
  | (k, v) :: rest => if String.eqb k name then Some v else assoc name rest
  end.

Definition getEncodingOps (name : string) : option Encoding :=
  assoc name encoding_names.

(** What the platform supplies and this development does not unfold: the
    text decoders, and the string-to-number conversion [Buffer.from]
    applies to the elements of an array. *)
Class Platform := {
  decode : Encoding -> list byte -> string;
  decode_empty : forall enc, decode enc [] = "";
  string_to_uint8 : string -> byte
}.

Definition byte_of_Z (z : Z) : byte :=
  default x00 (Byte.of_N (Z.to_N (z mod 256))).

(** [Number(z)] for a BigInt [z]: the nearest double, ties to even. The
    result is an integer, kept in [Z]. Exact up to [2^53] in magnitude. *)
Definition Number (z : Z) : Z :=
  let a := Z.abs z in
  if a <? 2 ^ 53 then z
  else
    let k := Z.log2 a - 52 in
    let q := a / 2 ^ k in
    let r := a mod 2 ^ k in
    let half := 2 ^ (k - 1) in
    let q' := if r <? half then q
              else if half <? r then q + 1
              else if Z.even q then q else q + 1 in
    Z.sgn z * (q' * 2 ^ k).

(** An i64 argument of an import as the host function receives it: the
    BigInt of its signed reading, so a 64-bit value of [2^63] or more
    arrives negative. *)
Definition BigInt_of_i64 (u : Z) : Z :=
  if u <? 2 ^ 63 then u else u - 2 ^ 64.

(** [%TypedArray%.prototype.slice(start, end)] on a Uint8Array: negative
    indices count from the end, and both are clamped to the array. *)
Definition relative_index (len i : Z) : Z :=
  if i <? 0 then Z.max (len + i) 0 else Z.min i len.

Definition Uint8Array_slice (mem : list byte) (start end_ : Z) : list byte :=
  let len := Z.of_nat (length mem) in
  let first := relative_index len start in
  let final := relative_index len end_ in
  take (Z.to_nat (Z.max (final - first) 0)) (drop (Z.to_nat first) mem).

Definition out_of_bounds (what : string) : Exception :=
  mkException RangeError what.

(** [new Uint8Array(buffer, byteOffset, length)]: the bytes the view
    covers, or a RangeError when it does not fit in the buffer. *)
Definition Uint8Array_view (mem : list byte) (byteOffset len : Z)
  : Completion (list byte) :=
  if (byteOffset <? 0) || (2 ^ 53 - 1 <? byteOffset) then
    Throw (out_of_bounds "Start offset is outside the bounds of the buffer")
  else if (len <? 0) || (2 ^ 53 - 1 <? len) then
    Throw (out_of_bounds "Invalid typed array length")
  else if Z.of_nat (length mem) <? byteOffset + len then
    Throw (out_of_bounds "Invalid typed array length")
  else Normal (take (Z.to_nat len) (drop (Z.to_nat byteOffset) mem)).

(** [mem.set(source, offset)]: a RangeError when the offset is negative
    or the source does not fit at the offset, also for an empty source. *)
Definition Uint8Array_set (mem src : list byte) (offset : Z) : Completion (list byte) :=
  if (offset <? 0) || (Z.of_nat (length mem) <? Z.of_nat (length src) + offset) then
    Throw (out_of_bounds "offset is out of bounds")
  else
    Normal (take (Z.to_nat offset) mem ++ src
            ++ drop (Z.to_nat offset + length src) mem).

Definition invalid_buffer_source : Exception :=
  mkException TypeError
    "The first argument must be of type string or an instance of Buffer, ArrayBuffer, or Array or an Array-like Object.".

(** [Buffer.from(value)]. *)
Definition Buffer_from {platform : Platform} (v : Value) : Completion (list byte) :=
  match v with
  | JsString s => Normal (String.list_byte_of_string s)
  | JsBytes b => Normal b
  | JsNumbers l => Normal (byte_of_Z <$> l)
  | JsStrings l => Normal (string_to_uint8 <$> l)
  | JsUndefined | JsNumber _ | JsMemory _ => Throw invalid_buffer_source
  end.

Definition unknown_encoding (name : string) : Exception :=
  mkException TypeError ("Unknown encoding: " +:+ name).

(** [buf.toString(encoding)]. Node returns [''] for an empty range before
    it looks the encoding up, so an unknown name only throws on a buffer
    that is not empty. *)
Definition Buffer_toString {platform : Platform} (buf : list byte) (encoding : string)
  : Completion string :=
  match buf with
  | [] => Normal ""
  | _ :: _ =>
      match getEncodingOps encoding with
      | Some enc => Normal (decode enc buf)
      | None => Throw (unknown_encoding encoding)
      end
  end.

(** Truthiness of an optional string ([undefined] and [''] are falsy). *)
Definition truthy_string (s : option string) : bool :=
  match s with
  | Some s => negb (String.eqb s "")
  | None => false
  end.

End Js.

(** ** worker.js: the host runtime *)

Module Worker.
Import Js.

Definition MAX_U64 : Z := 18446744073709551615.

(** The context object of one call. [runWASM] creates it with
    [blockHeight], [contractId], [methodArgs] and [logs]; [memory] is
    attached after instantiation and [result] by [value_return]. *)
Record Ctx := mkCtx {
  blockHeight : Z;
  contractId : string;
  methodArgs : list byte;
  logs : list string;
  memory : list byte;
  result : option (list byte)
}.

(** A property read [ctx.name]. A name the object does not have reads
    as [undefined]. *)
Definition ctx_get (c : Ctx) (name : string) : Value :=
  if String.eqb name "blockHeight" then JsNumber (blockHeight c)
  else if String.eqb name "contractId" then JsString (contractId c)
  else if String.eqb name "methodArgs" then JsBytes (methodArgs c)
  else if String.eqb name "logs" then JsStrings (logs c)
  else if String.eqb name "memory" then JsMemory (memory c)
  else if String.eqb name "result" then from_option JsBytes JsUndefined (result c)
  else JsUndefined.

(** What the worker posts to its parent port. The three shapes of the
    source are [{ result, logs }], [{ error }] and
    [{ methodName: 'storage_read', compKey }]; a field that is missing
    or [undefined] is [None]. *)
Record Message := mkMessage {
  msg_result : option (list byte);
  msg_logs : option (list string);
  msg_error : option Exception;
  msg_methodName : option string;
  msg_compKey : option (list byte)
}.

(** One outcome of [receiveMessageOnPort(parentPort)]: [None] when no
    message is waiting, [Some m] for [{ message: m }], where [m] is
    [None] for [null] (or [undefined]) and [Some data] for a byte array. *)
Definition Poll := option (option (list byte)).

(** The state a host function works on: the context, the [registers]
    object of the closure, the messages posted so far, and the outcomes
    of the polls of the parent port still to come. *)
Record State := mkState {
  ctx : Ctx;
  registers : gmap Z (list byte);
  posted : list Message;
  port : list Poll
}.

Definition with_ctx (c : Ctx) (st : State) : State :=
  mkState c (registers st) (posted st) (port st).
Definition with_registers (r : gmap Z (list byte)) (st : State) : State :=
  mkState (ctx st) r (posted st) (port st).
Definition with_memory (m : list byte) (c : Ctx) : Ctx :=
  mkCtx (blockHeight c) (contractId c) (methodArgs c) (logs c) m (result c).
Definition with_logs (l : list string) (c : Ctx) : Ctx :=
  mkCtx (blockHeight c) (contractId c) (methodArgs c) l (memory c) (result c).
Definition with_result (r : option (list byte)) (c : Ctx) : Ctx :=
  mkCtx (blockHeight c) (contractId c) (methodArgs c) (logs c) (memory c) r.

(** *** The monad of host functions *)

Definition Host (A : Type) : Type := State -> Completion A * State.

Definition ret {A} (a : A) : Host A := fun st => (Normal a, st).
Definition throw {A} (e : Exception) : Host A := fun st => (Throw e, st).
Definition spin {A} : Host A := fun st => (Diverge, st).
Definition bind {A B} (m : Host A) (k : A -> Host B) : Host B :=
  fun st =>
    match m st with
    | (Normal a, st') => k a st'
    | (Throw e, st') => (Throw e, st')
    | (Diverge, st') => (Diverge, st')
    end.
Definition lift {A} (c : Completion A) : Host A := fun st => (c, st).
Definition get : Host State := fun st => (Normal st, st).
Definition modify (f : State -> State) : Host unit := fun st => (Normal tt, f st).

Notation "'let*' x ':=' m 'in' k" := (bind m (fun x => k))
  (at level 10, x name, m at level 100, k at level 200).
Notation "m ';;' k" := (bind m (fun _ => k))
  (at level 100, k at level 200, right associativity).

Section HostFunctions.
Context {platform : Platform}.

Definition throw_error {A} (message : string) : Host A :=
  throw (mkException Error message).

Definition notImplemented (name : string) (args : list Z) : Host (option Z) :=
  throw_error ("method not implemented: " +:+ name).

Definition prohibitedInView (name : string) (args : list Z) : Host (option Z) :=
  throw_error ("method not available for view calls: " +:+ name).

(** The 16-bit units from the start of [bs] up to the first zero unit,
    as the bytes they occupy; [None] when no zero unit follows. *)
Fixpoint units_until_zero (bs : list byte) : option (list byte) :=
  match bs with
  | lo :: hi :: rest =>
      if Byte.eqb lo x00 && Byte.eqb hi x00 then Some []
      else (fun r => lo :: hi :: r) <$> units_until_zero rest
  | _ => None
  end.

(** [readUTF16CStr(ptr)]. The index starts at [Number(ptr) / 2]. An index
    that is fractional, negative or past the end reads [undefined], which
    differs from 0 and is pushed (it becomes a zero unit in the
    Uint16Array built at the end). So a fractional index never ends the
    loop, a negative one pushes until it reaches 0 and goes on from there,
    and a scan that meets no zero unit before the end never ends. *)
Definition readUTF16CStr (ptr : Z) : Host string :=
  let* st := get in
  let mem := memory (ctx st) in
  if Z.odd (Z.of_nat (length mem)) then
    throw (mkException RangeError
             "byte length of Uint16Array should be a multiple of 2")
  else
    let p := Number ptr in
    if Z.odd p then spin
    else match units_until_zero (drop (Z.to_nat p) mem) with
         | Some units =>
             let* buf := lift (Buffer_from
                                 (JsBytes (replicate (Z.to_nat (- p)) x00 ++ units))) in
             lift (Buffer_toString buf "ucs2")
         | None => spin
         end.

Definition register_len (register_id : Z) : Host Z :=
  let* st := get in
  ret (match registers st !! register_id with
       | Some r => Z.of_nat (length r)
       | None => MAX_U64
       end).

Definition read_register (register_id ptr : Z) : Host unit :=
  let* st := get in
  let* src := match registers st !! register_id with
              | Some r => ret r
              | None => lift (Buffer_from (JsNumbers []))
              end in
  let* mem := lift (Uint8Array_set (memory (ctx st)) src (Number ptr)) in
  modify (fun st => with_ctx (with_memory mem (ctx st)) st).

Definition current_account_id (register_id : Z) : Host unit :=
  let* st := get in
  let* buf := lift (Buffer_from (ctx_get (ctx st) "contract_id")) in
  modify (fun st => with_registers (<[register_id := buf]> (registers st)) st).

Definition input (register_id : Z) : Host unit :=
  let* st := get in
  let* buf := lift (Buffer_from (ctx_get (ctx st) "methodArgs")) in
  modify (fun st => with_registers (<[register_id := buf]> (registers st)) st).

Definition block_index : Host Z :=
  let* st := get in ret (blockHeight (ctx st)).

Definition value_return (value_len value_ptr : Z) : Host unit :=
  let* st := get in
  let mem := memory (ctx st) in
  let* buf := lift (Buffer_from
                      (JsBytes (Uint8Array_slice mem (Number value_ptr)
                                  (Number (value_ptr + value_len))))) in
  modify (fun st => with_ctx (with_result (Some buf) (ctx st)) st).

Definition panic : Host unit :=
  throw_error "panic: explicit guest panic".

(** The bytes of [new Uint8Array(ctx.memory.buffer, Number(ptr), Number(len))]
    copied by [Buffer.from]. *)
Definition memory_bytes (len ptr : Z) : Host (list byte) :=
  let* st := get in
  let* view := lift (Uint8Array_view (memory (ctx st)) (Number ptr) (Number len)) in
  lift (Buffer_from (JsBytes view)).

Definition panic_utf8 (len ptr : Z) : Host unit :=
  let* buf := memory_bytes len ptr in
  let* text := lift (Buffer_toString buf "utf8") in
  throw_error ("panic: " +:+ text).

Definition abort (msg_ptr filename_ptr line col : Z) : Host unit :=
  let* msg := readUTF16CStr msg_ptr in
  let* filename := readUTF16CStr filename_ptr in
  throw_error ("abort: " +:+ msg +:+ " " +:+ filename
               +:+ ":" +:+ pretty line +:+ ":" +:+ pretty col).

Definition push_log (message : string) : Host unit :=
  modify (fun st => with_ctx (with_logs (logs (ctx st) ++ [message]) (ctx st)) st).

Definition log_utf8 (len ptr : Z) : Host unit :=
  let* buf := memory_bytes len ptr in
  let* message := lift (Buffer_toString buf "utf8") in
  push_log message.

Definition log_utf16 (len ptr : Z) : Host unit :=
  let* buf := memory_bytes len ptr in
  let* message := lift (Buffer_toString buf "utf16") in
  push_log message.

(** [Buffer.concat([Buffer.from(`${ctx.contractId}:`), storageKey])]. *)
Definition compKey (c : Ctx) (storageKey : list byte) : Completion (list byte) :=
  match Buffer_from (JsString (contractId c +:+ ":")) with
  | Normal prefix => Normal (concat [prefix; storageKey])
  | Throw e => Throw e
  | Diverge => Diverge
  end.

Definition postMessage (m : Message) : Host unit :=
  modify (fun st => mkState (ctx st) (registers st) (posted st ++ [m]) (port st)).

(** [do { resultMessage = receiveMessageOnPort(parentPort) } while (!resultMessage)]:
    the first message among the polls to come and the polls after it;
    [None] when no message ever arrives. *)
Fixpoint first_message (polls : list Poll) : option (option (list byte) * list Poll) :=
  match polls with
  | [] => None
  | None :: rest => first_message rest
  | Some message :: rest => Some (message, rest)
  end.

Definition receive : Host (option (list byte)) :=
  fun st =>
    match first_message (port st) with
    | Some (message, rest) =>
        (Normal message, mkState (ctx st) (registers st) (posted st) rest)
    | None => (Diverge, mkState (ctx st) (registers st) (posted st) [])
    end.

Definition storage_read (key_len key_ptr register_id : Z) : Host Z :=
  let* storageKey := memory_bytes key_len key_ptr in
  let* st := get in
  let* key := lift (compKey (ctx st) storageKey) in
  postMessage (mkMessage None None None (Some "storage_read") (Some key)) ;;
  let* result := receive in
  match result with
  | None => ret 0
  | Some data =>
      modify (fun st => with_registers (<[register_id := data]> (registers st)) st) ;;
      ret 1
  end.

(** *** The import table *)

(** A host function as the guest calls it: the arguments are the BigInt
    (or Number) values of the call, the result is the returned BigInt, or
    [None] for [undefined]. A guest compiled against the ABI passes each
    function the arguments of its signature; a shorter argument list is
    outside the ABI and is refused here. *)
Definition HostFn : Type := list Z -> Host (option Z).

Definition abi_mismatch : Host (option Z) :=
  throw (mkException TypeError "host function called with fewer arguments than its ABI signature").

Definition returns_nothing (m : Host unit) : Host (option Z) :=
  m ;; ret None.

Definition returns_u64 (m : Host Z) : Host (option Z) :=
  let* z := m in ret (Some z).

Definition fn0 (f : Host (option Z)) : HostFn := fun _ => f.

Definition fn1 (f : Z -> Host (option Z)) : HostFn :=
  fun args => match args with a :: _ => f a | _ => abi_mismatch end.

Definition fn2 (f : Z -> Z -> Host (option Z)) : HostFn :=
  fun args => match args with a :: b :: _ => f a b | _ => abi_mismatch end.

Definition fn3 (f : Z -> Z -> Z -> Host (option Z)) : HostFn :=
  fun args => match args with a :: b :: c :: _ => f a b c | _ => abi_mismatch end.

Definition fn4 (f : Z -> Z -> Z -> Z -> Host (option Z)) : HostFn :=
  fun args => match args with a :: b :: c :: d :: _ => f a b c d | _ => abi_mismatch end.

Definition prohibited (name : string) : string * HostFn :=
  (name, prohibitedInView name).

Definition unimplemented (name : string) : string * HostFn :=
  (name, notImplemented name).

(** [imports(ctx).env], entry by entry in the order of the source. *)
Definition env : list (string * HostFn) :=
  [ ("register_len", fn1 (fun register_id => returns_u64 (register_len register_id)));
    ("read_register", fn2 (fun register_id ptr => returns_nothing (read_register register_id ptr)));
    ("current_account_id", fn1 (fun register_id => returns_nothing (current_account_id register_id)));
    prohibited "signer_account_id";
    prohibited "signer_account_pk";
    prohibited "predecessor_account_id";
    ("input", fn1 (fun register_id => returns_nothing (input register_id)));
    ("block_index", fn0 (returns_u64 block_index));
    unimplemented "block_timestamp";
    unimplemented "epoch_height";
    unimplemented "storage_usage";
    unimplemented "account_balance";
    unimplemented "account_locked_balance";
    prohibited "attached_deposit";
    prohibited "prepaid_gas";
    prohibited "used_gas";
    unimplemented "random_seed";
    unimplemented "sha256";
    unimplemented "keccak256";
    unimplemented "keccak512";
    ("value_return", fn2 (fun value_len value_ptr => returns_nothing (value_return value_len value_ptr)));
    ("panic", fn0 (returns_nothing panic));
    ("panic_utf8", fn2 (fun len ptr => returns_nothing (panic_utf8 len ptr)));
    ("abort", fn4 (fun msg_ptr filename_ptr line col =>
                     returns_nothing (abort msg_ptr filename_ptr line col)));
    ("log_utf8", fn2 (fun len ptr => returns_nothing (log_utf8 len ptr)));
    ("log_utf16", fn2 (fun len ptr => returns_nothing (log_utf16 len ptr)));
    prohibited "promise_create";
    prohibited "promise_then";
    prohibited "promise_and";
    prohibited "promise_batch_create";
    prohibited "promise_batch_then";
    prohibited "promise_batch_action_create_account";
    prohibited "promise_batch_action_deploy_contract";
    prohibited "promise_batch_action_function_call";
    prohibited "promise_batch_action_transfer";
    prohibited "promise_batch_action_stake";
    prohibited "promise_batch_action_add_key_with_full_access";
    prohibited "promise_batch_action_add_key_with_function_call";
    prohibited "promise_batch_action_delete_key";
    prohibited "promise_batch_action_delete_account";
    prohibited "promise_results_count";
    prohibited "promise_result";
    prohibited "promise_return";
    prohibited "storage_write";
    ("storage_read", fn3 (fun key_len key_ptr register_id =>
                            returns_u64 (storage_read key_len key_ptr register_id)));
    prohibited "storage_remove";
    unimplemented "storage_has_key";
    unimplemented "validator_stake";
    unimplemented "validator_total_stake" ].

(** *** The guest and [runWASM] *)

(** What an exported guest function does, as far as the host can see: it
    returns, traps, never returns, writes or reads its linear memory, or
    calls an import and goes on with the value returned. An exception
    thrown by the import ends the run, unless the call stands in a [try]
    block with [catch_all] (WebAssembly exception handling): then the
    guest goes on in its handler. A trap cannot be caught. *)
Inductive Guest :=
| Return_
| Trap (message : string)
| Loop
| WriteMem (ptr : nat) (bytes : list byte) (k : Guest)
| ReadMem (k : list byte -> Guest)
| CallImport (name : string) (args : list Z) (k : option Z -> Guest)
| TryImport (name : string) (args : list Z) (k : option Z -> Guest) (handler : Guest).

(** A compiled module: its exported functions and the initial contents of
    the memory it exports. *)
Record WasmModule := mkWasmModule {
  exports : list (string * Guest);
  initial_memory : list byte
}.

(** The task message the pool posts to a worker. *)
Record Task := mkTask {
  wasmModule : WasmModule;
  task_blockHeight : Z;
  task_contractId : string;
  task_methodName : string;
  task_methodArgs : list byte
}.

(** A call of an import. A module that imports a name the table lacks is
    refused with a LinkError. *)
Definition call_import (name : string) (args : list Z) : Host (option Z) :=
  match assoc name env with
  | Some f => f args
  | None => throw (mkException LinkError ("function import requires a callable: " +:+ name))
  end.

(** A call of an import inside a [try] block with [catch_all]: the value
    returned, or [None] when the host function threw and the exception was
    caught. What the function did before it threw stays done. *)
Definition try_import (name : string) (args : list Z) : Host (option (option Z)) :=
  match assoc name env with
  | Some f =>
      fun st =>
        match f args st with
        | (Normal v, st') => (Normal (Some v), st')
        | (Throw _, st') => (Normal None, st')
        | (Diverge, st') => (Diverge, st')
        end
  | None => throw (mkException LinkError ("function import requires a callable: " +:+ name))
  end.

Definition store (ptr : nat) (bytes : list byte) : Host unit :=
  let* st := get in
  let mem := memory (ctx st) in
  if decide (ptr + length bytes <= length mem)%nat then
    modify (fun st => with_ctx (with_memory
              (take ptr mem ++ bytes ++ drop (ptr + length bytes) mem) (ctx st)) st)
  else throw (mkException RuntimeError "memory access out of bounds").

Fixpoint run (g : Guest) : Host unit :=
  match g with
  | Return_ => ret tt
  | Trap message => throw (mkException RuntimeError message)
  | Loop => spin
  | WriteMem ptr bytes k => store ptr bytes ;; run k
  | ReadMem k => let* st := get in run (k (memory (ctx st)))
  | CallImport name args k => let* v := call_import name args in run (k v)
  | TryImport name args k handler =>
      let* caught := try_import name args in
      match caught with
      | Some v => run (k v)
      | None => run handler
      end
  end.

(** The state in which a call starts: a fresh context, an empty register
    object, nothing posted, and the polls the parent port will answer. *)
Definition initial_state (t : Task) (polls : list Poll) : State :=
  mkState (mkCtx (task_blockHeight t) (task_contractId t) (task_methodArgs t) []
                 (initial_memory (wasmModule t)) None)
          ∅ [] polls.

Definition runWASM (t : Task) : Host Ctx :=
  match assoc (task_methodName t) (exports (wasmModule t)) with
  | Some g => run g ;; let* st := get in ret (ctx st)
  | None => throw (mkException TypeError "wasm2.exports[methodName] is not a function")
  end.

(** [parentPort.on('message', ...)]: everything the worker posts for one
    task. Nothing follows the messages of the run when the guest never
    returns. *)
Definition on_message (t : Task) (polls : list Poll) : list Message :=
  match runWASM t (initial_state t polls) with
  | (Normal c, st) => posted st ++ [mkMessage (result c) (Some (logs c)) None None None]
  | (Throw e, st) => posted st ++ [mkMessage None None (Some e) None None]
  | (Diverge, st) => posted st
  end.

End HostFunctions.
End Worker.

(** ** worker-pool.js: the worker pool *)

Module WorkerPool.
Import Js Worker.

(** *** [CONTRACT_TIMEOUT_MS] *)

Definition is_space (a : Ascii.ascii) : bool :=
  let n := Z.of_nat (Ascii.nat_of_ascii a) in
  ((9 <=? n) && (n <=? 13)) || (n =? 32).

Fixpoint trim_start (s : string) : string :=
  match s with
  | String a rest => if is_space a then trim_start rest else s
  | EmptyString => s
  end.

Definition digit_value (a : Ascii.ascii) : option Z :=
  let n := Z.of_nat (Ascii.nat_of_ascii a) in
  if (48 <=? n) && (n <=? 57) then Some (n - 48)
  else if (97 <=? n) && (n <=? 122) then Some (n - 87)
  else if (65 <=? n) && (n <=? 90) then Some (n - 55)
  else None.

(** The value of the longest prefix of [s] made of digits of the radix;
    [acc] when there is none. *)
Fixpoint digits (radix : Z) (s : string) (acc : option Z) : option Z :=
  match s with
  | String a rest =>
      match digit_value a with
      | Some d => if d <? radix then digits radix rest (Some (radix * default 0 acc + d))
                  else acc
      | None => acc
      end
  | EmptyString => acc
  end.

(** [parseInt(s)] on an ASCII string; [None] is NaN. *)
Definition parseInt (s : string) : option Z :=
  let s := trim_start s in
  let '(sign, s) := match s with
                    | String "-"%char rest => (-1, rest)
                    | String "+"%char rest => (1, rest)
                    | _ => (1, s)
                    end in
  let '(radix, s) := match s with
                     | String "0"%char (String "x"%char rest) => (16, rest)
                     | String "0"%char (String "X"%char rest) => (16, rest)
                     | _ => (10, s)
                     end in
  (fun v => Number (sign * v)) <$> digits radix s None.

(** [parseInt(process.env.FAST_NEAR_CONTRACT_TIMEOUT_MS || '1000')], from
    the value of the environment variable ([None] when it is not set). *)
Definition CONTRACT_TIMEOUT_MS (env_value : option string) : option Z :=
  parseInt (if truthy_string env_value then default "" env_value else "1000").

(** *** The storage client

    The collaborator the pool asks for data. Its two operations are
    asynchronous in the source; here each is the value its promise
    resolves to, [None] for [null] or [undefined]. A block hash that is
    found is a truthy value. *)
Class StorageClient := {
  BlockHash : Type;
  getLatestDataBlockHash : list byte -> Z -> option BlockHash;
  getData : list byte -> BlockHash -> option (list byte)
}.

(** *** The state of the pool *)

Definition WorkerId := nat.
Definition PromiseId := nat.
Definition TimerId := nat.

(** How the promise returned by [runContract] has settled. A promise that
    is not in the table of the pool is pending. *)
Inductive Settlement :=
| Resolved (result : list byte) (logs : option (list string))
| Rejected (error : Exception).

(** [worker[kTaskInfo]]: [resolve] and [reject] are the promise they
    settle. *)
Record TaskInfo := mkTaskInfo {
  ti_promise : PromiseId;
  ti_blockHeight : Z;
  ti_contractId : string;
  ti_methodName : string;
  ti_timeoutHandle : TimerId;
  ti_didTimeout : bool
}.

(** What the pool posts to a worker: a task, or the reply to a storage
    read ([None] for [null] or [undefined]). *)
Inductive ToWorker :=
| PostTask (t : Task)
| PostReply (data : option (list byte)).

Record Pool := mkPool {
  numThreads : nat;
  workers : list WorkerId;
  freeWorkers : list WorkerId;
  kTaskInfo : gmap WorkerId TaskInfo;
  (* the [once(kWorkerFreedEvent, ...)] callbacks: the call to retry and
     the promise its outcome is forwarded to *)
  freed_listeners : list (Task * PromiseId);
  (* whether the owner listens to the pool's 'error' event *)
  error_listener : bool;
  promises : gmap PromiseId Settlement;
  (* armed timers: the worker the callback closes over, and the delay *)
  timers : gmap TimerId (WorkerId * option Z);
  (* counters for the objects created so far *)
  constructed : nat;
  next_promise : PromiseId;
  next_timer : TimerId;
  (* workers on which [terminate()] was called *)
  terminated : list WorkerId;
  (* [worker.postMessage] calls *)
  to_worker : list (WorkerId * ToWorker);
  (* 'error' events emitted on the pool, and exceptions no handler caught *)
  pool_errors : list Exception;
  uncaught : list Exception
}.

Section Setters.
Variable p : Pool.

Definition set_workers (x : list WorkerId) : Pool :=
  mkPool (numThreads p) x (freeWorkers p) (kTaskInfo p) (freed_listeners p)
    (error_listener p) (promises p) (timers p) (constructed p) (next_promise p)
    (next_timer p) (terminated p) (to_worker p) (pool_errors p) (uncaught p).

Definition set_freeWorkers (x : list WorkerId) : Pool :=
  mkPool (numThreads p) (workers p) x (kTaskInfo p) (freed_listeners p)
    (error_listener p) (promises p) (timers p) (constructed p) (next_promise p)
    (next_timer p) (terminated p) (to_worker p) (pool_errors p) (uncaught p).

Definition set_kTaskInfo (x : gmap WorkerId TaskInfo) : Pool :=
  mkPool (numThreads p) (workers p) (freeWorkers p) x (freed_listeners p)
    (error_listener p) (promises p) (timers p) (constructed p) (next_promise p)
    (next_timer p) (terminated p) (to_worker p) (pool_errors p) (uncaught p).

Definition set_freed_listeners (x : list (Task * PromiseId)) : Pool :=
  mkPool (numThreads p) (workers p) (freeWorkers p) (kTaskInfo p) x
    (error_listener p) (promises p) (timers p) (constructed p) (next_promise p)
    (next_timer p) (terminated p) (to_worker p) (pool_errors p) (uncaught p).

Definition set_error_listener (x : bool) : Pool :=
  mkPool (numThreads p) (workers p) (freeWorkers p) (kTaskInfo p) (freed_listeners p)
    x (promises p) (timers p) (constructed p) (next_promise p)
    (next_timer p) (terminated p) (to_worker p) (pool_errors p) (uncaught p).

Definition set_promises (x : gmap PromiseId Settlement) : Pool :=
  mkPool (numThreads p) (workers p) (freeWorkers p) (kTaskInfo p) (freed_listeners p)
    (error_listener p) x (timers p) (constructed p) (next_promise p)
    (next_timer p) (terminated p) (to_worker p) (pool_errors p) (uncaught p).

Definition set_timers (x : gmap TimerId (WorkerId * option Z)) : Pool :=
  mkPool (numThreads p) (workers p) (freeWorkers p) (kTaskInfo p) (freed_listeners p)
    (error_listener p) (promises p) x (constructed p) (next_promise p)
    (next_timer p) (terminated p) (to_worker p) (pool_errors p) (uncaught p).

Definition set_constructed (x : nat) : Pool :=
  mkPool (numThreads p) (workers p) (freeWorkers p) (kTaskInfo p) (freed_listeners p)
    (error_listener p) (promises p) (timers p) x (next_promise p)
    (next_timer p) (terminated p) (to_worker p) (pool_errors p) (uncaught p).

Definition set_next_promise (x : PromiseId) : Pool :=
  mkPool (numThreads p) (workers p) (freeWorkers p) (kTaskInfo p) (freed_listeners p)
    (error_listener p) (promises p) (timers p) (constructed p) x
    (next_timer p) (terminated p) (to_worker p) (pool_errors p) (uncaught p).

Definition set_next_timer (x : TimerId) : Pool :=
  mkPool (numThreads p) (workers p) (freeWorkers p) (kTaskInfo p) (freed_listeners p)
    (error_listener p) (promises p) (timers p) (constructed p) (next_promise p)
    x (terminated p) (to_worker p) (pool_errors p) (uncaught p).

Definition set_terminated (x : list WorkerId) : Pool :=
  mkPool (numThreads p) (workers p) (freeWorkers p) (kTaskInfo p) (freed_listeners p)
    (error_listener p) (promises p) (timers p) (constructed p) (next_promise p)
    (next_timer p) x (to_worker p) (pool_errors p) (uncaught p).

Definition set_to_worker (x : list (WorkerId * ToWorker)) : Pool :=
  mkPool (numThreads p) (workers p) (freeWorkers p) (kTaskInfo p) (freed_listeners p)
    (error_listener p) (promises p) (timers p) (constructed p) (next_promise p)
    (next_timer p) (terminated p) x (pool_errors p) (uncaught p).

Definition set_pool_errors (x : list Exception) : Pool :=
  mkPool (numThreads p) (workers p) (freeWorkers p) (kTaskInfo p) (freed_listeners p)
    (error_listener p) (promises p) (timers p) (constructed p) (next_promise p)
    (next_timer p) (terminated p) (to_worker p) x (uncaught p).

Definition set_uncaught (x : list Exception) : Pool :=
  mkPool (numThreads p) (workers p) (freeWorkers p) (kTaskInfo p) (freed_listeners p)
    (error_listener p) (promises p) (timers p) (constructed p) (next_promise p)
    (next_timer p) (terminated p) (to_worker p) (pool_errors p) x.

End Setters.

(** *** Array operations of the pool *)

(** [array.pop()]: the last element and the array without it. *)
Definition pop {A} (l : list A) : option (A * list A) :=
  match reverse l with
  | x :: rest => Some (x, reverse rest)
  | [] => None
  end.

(** [array.indexOf(w)]: the first position of [w], or -1. *)
Fixpoint indexOf (w : WorkerId) (l : list WorkerId) : Z :=
  match l with
  | [] => -1
  | x :: rest =>
      if decide (x = w) then 0
      else let i := indexOf w rest in if i <? 0 then -1 else i + 1
  end.

(** [array.splice(start, deleteCount)]: a negative start counts from the
    end, so [splice(-1, 1)] removes the last element. *)
Definition splice {A} (start deleteCount : Z) (l : list A) : list A :=
  let len := Z.of_nat (length l) in
  let actualStart := if start <? 0 then Z.max (len + start) 0 else Z.min start len in
  let actualDeleteCount := Z.min (Z.max deleteCount 0) (len - actualStart) in
  take (Z.to_nat actualStart) l ++ drop (Z.to_nat (actualStart + actualDeleteCount)) l.

(** *** The methods and handlers of [WorkerPool] *)

Section Handlers.
Context {client : StorageClient}.
(* process.env.FAST_NEAR_CONTRACT_TIMEOUT_MS *)
Variable FAST_NEAR_CONTRACT_TIMEOUT_MS : option string.

(** [resolve] and [reject] settle a promise once; later calls do nothing. *)
Definition settle (promise : PromiseId) (s : Settlement) (p : Pool) : Pool :=
  match promises p !! promise with
  | None => set_promises p (<[promise := s]> (promises p))
  | Some _ => p
  end.

(** The executor of the promise [runContract] returns. With no free
    worker it registers a once-listener that calls [runContract] again and
    forwards the outcome ([.then(resolve).catch(reject)]), which is the
    same executor run again for the same promise. *)
Definition start (t : Task) (promise : PromiseId) (p : Pool) : Pool :=
  match pop (freeWorkers p) with
  | None => set_freed_listeners p (freed_listeners p ++ [(t, promise)])
  | Some (worker, rest) =>
      let timer := next_timer p in
      let info := mkTaskInfo promise (task_blockHeight t) (task_contractId t)
                    (task_methodName t) timer false in
      let p := set_freeWorkers p rest in
      let p := set_kTaskInfo p (<[worker := info]> (kTaskInfo p)) in
      let p := set_to_worker p (to_worker p ++ [(worker, PostTask t)]) in
      let p := set_timers p
                 (<[timer := (worker, CONTRACT_TIMEOUT_MS FAST_NEAR_CONTRACT_TIMEOUT_MS)]>
                    (timers p)) in
      set_next_timer p (S timer)
  end.

Definition runContract (t : Task) (p : Pool) : PromiseId * Pool :=
  let promise := next_promise p in
  (promise, start t promise (set_next_promise p (S promise))).

(** [this.emit(kWorkerFreedEvent)]: every once-listener registered at
    that moment is removed and called, in order of registration. *)
Definition emit_freed (p : Pool) : Pool :=
  fold_left (fun p '(t, promise) => start t promise p)
    (freed_listeners p) (set_freed_listeners p []).

(** The body of [addNewWorker] after the handlers are attached. *)
Definition addNewWorker (p : Pool) : Pool :=
  let worker := constructed p in
  let p := set_constructed p (S worker) in
  let p := set_workers p (workers p ++ [worker]) in
  let p := set_freeWorkers p (freeWorkers p ++ [worker]) in
  emit_freed p.

(** [new WorkerPool(numThreads, storageClient)]. *)
Definition new (numThreads : nat) : Pool :=
  Nat.iter numThreads addNewWorker
    (mkPool numThreads [] [] ∅ [] false ∅ ∅ 0%nat 0%nat 0%nat [] [] [] []).

(** The reply to a storage read, as the asynchronous function of the
    message handler computes it. *)
Definition storage_reply (compKey : list byte) (blockHeight : Z) : option (list byte) :=
  match getLatestDataBlockHash compKey blockHeight with
  | Some blockHash => getData compKey blockHash
  | None => None
  end.

(** [worker.on('message', ...)]. *)
Definition on_worker_message (worker : WorkerId) (m : Message) (p : Pool) : Pool :=
  match kTaskInfo p !! worker with
  | None =>
      set_uncaught p
        (uncaught p ++ [mkException TypeError "Cannot destructure 'worker[kTaskInfo]' as it is null."])
  | Some info =>
      let p := if truthy_string (msg_methodName m) then p
               else
                 let p := set_timers p (delete (ti_timeoutHandle info) (timers p)) in
                 let p := set_kTaskInfo p (delete worker (kTaskInfo p)) in
                 let p := set_freeWorkers p (freeWorkers p ++ [worker]) in
                 emit_freed p in
      match msg_error m with
      | Some error => settle (ti_promise info) (Rejected error) p
      | None =>
          match msg_result m with
          | Some result => settle (ti_promise info) (Resolved result (msg_logs m)) p
          | None =>
              match msg_methodName m, msg_compKey m with
              | Some name, Some compKey =>
                  if String.eqb name "storage_read" then
                    set_to_worker p
                      (to_worker p
                       ++ [(worker, PostReply (storage_reply compKey (ti_blockHeight info)))])
                  else p
              | _, _ => p
              end
          end
      end
  end.

Definition timed_out (info : TaskInfo) : Exception :=
  mkException Error
    (ti_contractId info +:+ "." +:+ ti_methodName info +:+ " execution timed out").

(** [worker.on('error', ...)]. Emitting 'error' on the pool throws when
    the pool has no listener for it, which ends the handler. *)
Definition on_worker_error (worker : WorkerId) (err : Exception) (p : Pool) : Pool :=
  let replace (p : Pool) : Pool :=
    addNewWorker (set_workers p (splice (indexOf worker (workers p)) 1 (workers p))) in
  match kTaskInfo p !! worker with
  | Some info =>
      let err := if ti_didTimeout info then timed_out info else err in
      replace (settle (ti_promise info) (Rejected err) p)
  | None =>
      if error_listener p then replace (set_pool_errors p (pool_errors p ++ [err]))
      else set_uncaught p (uncaught p ++ [err])
  end.

(** [worker.once('exit', ...)]. *)
Definition on_worker_exit (worker : WorkerId) (code : Z) (p : Pool) : Pool :=
  on_worker_error worker
    (mkException Error ("Worker stopped with exit code " +:+ pretty code)) p.

Definition terminate (worker : WorkerId) (p : Pool) : Pool :=
  set_terminated p (terminated p ++ [worker]).

(** The callback of the timer armed by [runContract]. A timer that was
    cleared or has fired is no longer in the table. *)
Definition on_timeout (timer : TimerId) (p : Pool) : Pool :=
  match timers p !! timer with
  | None => p
  | Some (worker, _) =>
      let p := set_timers p (delete timer (timers p)) in
      match kTaskInfo p !! worker with
      | Some info =>
          let info := mkTaskInfo (ti_promise info) (ti_blockHeight info) (ti_contractId info)
                        (ti_methodName info) (ti_timeoutHandle info) true in
          terminate worker (set_kTaskInfo p (<[worker := info]> (kTaskInfo p)))
      | None => p
      end
  end.

Definition close (p : Pool) : Pool :=
  fold_left (fun p worker => terminate worker p) (workers p) p.

(** *** What the event loop delivers to the pool *)

Inductive Event :=
| Submit (t : Task)                               (* a call of runContract *)
| WorkerMessage (worker : WorkerId) (m : Message)
| WorkerError (worker : WorkerId) (err : Exception)
| WorkerExit (worker : WorkerId) (code : Z)
| TimerFires (timer : TimerId)
| ListenError                                     (* pool.on('error', ...) *)
| Close.

Definition step (ev : Event) (p : Pool) : Pool :=
  match ev with
  | Submit t => (runContract t p).2
  | WorkerMessage worker m => on_worker_message worker m p
  | WorkerError worker err => on_worker_error worker err p
  | WorkerExit worker code => on_worker_exit worker code p
  | TimerFires timer => on_timeout timer p
  | ListenError => set_error_listener p true
  | Close => close p
  end.

(** An event of a worker comes from a worker that was constructed. *)
Definition deliverable (p : Pool) (ev : Event) : Prop :=
  match ev with
  | WorkerMessage worker _ | WorkerError worker _ | WorkerExit worker _ =>
      (worker < constructed p)%nat
  | _ => True
  end.

Inductive reachable : Pool -> Prop :=
| reachable_new (numThreads : nat) : reachable (new numThreads)
| reachable_step (p : Pool) (ev : Event) :
    reachable p -> deliverable p ev -> reachable (step ev p).

End Handlers.

End WorkerPool.

(** ** Collaborators and names used to state and run the properties *)

(** The largest byte length an ArrayBuffer can have. *)
Definition MAX_SAFE_INTEGER : Z := 2 ^ 53 - 1.

Fixpoint low_bytes (bs : list byte) : list byte :=
  match bs with
  | lo :: _ :: rest => lo :: low_bytes rest
  | _ => []
  end.

(** A platform for ASCII text: a UTF-8 byte is a character, a UTF-16
    unit is its low byte. *)
Definition ascii_decode (enc : Js.Encoding) (bs : list byte) : string :=
  match enc with
  | Js.Utf16le => String.string_of_list_byte (low_bytes bs)
  | _ => String.string_of_list_byte bs
  end.

Definition ascii_decode_empty (enc : Js.Encoding) : ascii_decode enc [] = "" :=
  match enc with
  | Js.Utf8 | Js.Utf16le | Js.Latin1 | Js.Base64 | Js.Base64url | Js.Hex | Js.Ascii =>
      eq_refl
  end.

Definition ascii_platform : Js.Platform :=
  {| Js.decode := ascii_decode;
     Js.decode_empty := ascii_decode_empty;
     Js.string_to_uint8 := fun _ => x00 |}.

(** A storage client that holds one value, written at block 5 under the
    key [alice.test:k]; a block is named by its height. *)
Definition one_value_client : WorkerPool.StorageClient :=
  {| WorkerPool.BlockHash := Z;
     WorkerPool.getLatestDataBlockHash := fun key height =>
       if String.eqb (String.string_of_list_byte key) "alice.test:k" && (5 <=? height)
       then Some 5 else None;
     WorkerPool.getData := fun key hash =>
       if String.eqb (String.string_of_list_byte key) "alice.test:k" && (hash =? 5)
       then Some (String.list_byte_of_string "v") else None |}.

(** The functions the specification lists as prohibited for view calls:
    signer and predecessor identity, attached deposit, gas queries, the
    promise functions, [storage_write] and [storage_remove]. *)
Definition prohibited_for_view : list string :=
  [ "signer_account_id"; "signer_account_pk"; "predecessor_account_id";
    "attached_deposit"; "prepaid_gas"; "used_gas";
    "promise_create"; "promise_then"; "promise_and";
    "promise_batch_create"; "promise_batch_then";
    "promise_batch_action_create_account"; "promise_batch_action_deploy_contract";
    "promise_batch_action_function_call"; "promise_batch_action_transfer";
    "promise_batch_action_stake"; "promise_batch_action_add_key_with_full_access";
    "promise_batch_action_add_key_with_function_call";
    "promise_batch_action_delete_key"; "promise_batch_action_delete_account";
    "promise_results_count"; "promise_result"; "promise_return";
    "storage_write"; "storage_remove" ].

(** A call state with eight bytes of memory holding [hello]. *)
Definition hello_state : Worker.State :=
  Worker.mkState
    (Worker.mkCtx 10 "alice.test" (String.list_byte_of_string "{}") []
       (String.list_byte_of_string "hello" ++ [x00; x00; x00]) None)
    ∅ [] [].

(** The same state with register 0 written, holding [ok]. *)
Definition written_state : Worker.State :=
  Worker.with_registers (<[0 := String.list_byte_of_string "ok"]> ∅) hello_state.

(** A call state of [alice.test] at block 10 whose memory starts with the
    key [k]; the reply to a storage read arrives at the third poll. *)
Definition key_state : Worker.State :=
  Worker.mkState
    (Worker.mkCtx 10 "alice.test" (String.list_byte_of_string "{}") []
       (String.list_byte_of_string "k" ++ [x00; x00; x00]) None)
    ∅ [] [None; None; Some (Some (String.list_byte_of_string "v"))].

(** A pool with one worker and no call yet, and the same pool after one
    call of a guest that logs [hello] and returns without calling
    [value_return]. *)
Definition hello_guest : Worker.Guest :=
  Worker.WriteMem 0 (String.list_byte_of_string "hello")
    (Worker.CallImport "log_utf8" [5; 0] (fun _ => Worker.Return_)).

(** A guest that calls [storage_write] inside a [try] block and, in the
    handler, returns the first five bytes of its memory as the result. *)
Definition catching_guest : Worker.Guest :=
  Worker.TryImport "storage_write" [1; 0; 1; 0; 0] (fun _ => Worker.Return_)
    (Worker.CallImport "value_return" [5; 0] (fun _ => Worker.Return_)).

Definition catching_task : Worker.Task :=
  Worker.mkTask
    (Worker.mkWasmModule [("main", catching_guest)]
       (String.list_byte_of_string "hello" ++ [x00; x00; x00]))
    10 "alice.test" "main" (String.list_byte_of_string "{}").

Definition hello_task : Worker.Task :=
  Worker.mkTask (Worker.mkWasmModule [("main", hello_guest)] (replicate 8 x00))
    10 "alice.test" "main" (String.list_byte_of_string "{}").

Definition idle_pool : WorkerPool.Pool := WorkerPool.new None 1.

Definition busy_pool : WorkerPool.Pool :=
  (WorkerPool.runContract None hello_task idle_pool).2.

(** The busy pool after a second call, which waits for a worker; the busy
    pool after its worker has reported a result; and the idle pool with a
    listener for 'error'. *)
Definition waiting_pool : WorkerPool.Pool :=
  (WorkerPool.runContract None hello_task busy_pool).2.

Definition served_pool : WorkerPool.Pool :=
  WorkerPool.on_worker_message (client := one_value_client) None 0%nat
    (Worker.mkMessage (Some (String.list_byte_of_string "v")) (Some ["hello"]) None None None)
    busy_pool.

Definition listening_pool : WorkerPool.Pool :=
  WorkerPool.set_error_listener idle_pool true.

(** The pool of one worker, with a listener for 'error', after its idle
    worker has exited and two calls were made: the handler of the exit
    has put worker 1 in the place of worker 0 in [workers], and has left
    worker 0 in [freeWorkers]; the first call went to worker 1 and the
    second to worker 0, which has exited. *)
Definition stale_pool : WorkerPool.Pool :=
  fold_left (fun p ev => WorkerPool.step (client := one_value_client) None ev p)
    [WorkerPool.ListenError; WorkerPool.WorkerExit 0%nat 1;
     WorkerPool.Submit hello_task; WorkerPool.Submit hello_task]
    idle_pool.

(** Whether an event is a message, an error or the exit of the worker. *)
Definition from_worker (w : WorkerPool.WorkerId) (ev : WorkerPool.Event) : bool :=
  match ev with
  | WorkerPool.WorkerMessage w' _ | WorkerPool.WorkerError w' _
  | WorkerPool.WorkerExit w' _ => bool_decide (w' = w)
  | _ => false
  end.

(** The promise is pending and only the task of the worker [w] can settle
    it: no task of another worker and no waiting caller holds it, and it
    is not the promise of a call yet to come. *)
Definition only_held_by (w : WorkerPool.WorkerId) (promise : WorkerPool.PromiseId)
    (p : WorkerPool.Pool) : Prop :=
  WorkerPool.promises p !! promise = None
  /\ (forall w' info,
        WorkerPool.kTaskInfo p !! w' = Some info ->
        WorkerPool.ti_promise info = promise -> w' = w)
  /\ Forall (fun waiting : Worker.Task * WorkerPool.PromiseId => waiting.2 <> promise)
       (WorkerPool.freed_listeners p)
  /\ (promise < WorkerPool.next_promise p)%nat.

(** What [start] and a change of the waiting callers leave alone. *)
Definition same_frame (p p' : WorkerPool.Pool) : Prop :=
  WorkerPool.numThreads p' = WorkerPool.numThreads p
  /\ WorkerPool.workers p' = WorkerPool.workers p
  /\ WorkerPool.constructed p' = WorkerPool.constructed p
  /\ WorkerPool.terminated p' = WorkerPool.terminated p
  /\ WorkerPool.promises p' = WorkerPool.promises p
  /\ WorkerPool.error_listener p' = WorkerPool.error_listener p.

(** Every worker the pool refers to was constructed, no worker is listed
    twice, and every armed timer has the configured delay. *)
Definition pool_wf (env_value : option string) (p : WorkerPool.Pool) : Prop :=
  NoDup (WorkerPool.workers p)
  /\ Forall (fun w => w < WorkerPool.constructed p)%nat (WorkerPool.workers p)
  /\ Forall (fun w => w < WorkerPool.constructed p)%nat (WorkerPool.freeWorkers p)
  /\ Forall (fun w => w < WorkerPool.constructed p)%nat (WorkerPool.terminated p)
  /\ (forall timer worker delay,
        WorkerPool.timers p !! timer = Some (worker, delay) ->
        (worker < WorkerPool.constructed p)%nat
        /\ delay = WorkerPool.CONTRACT_TIMEOUT_MS env_value).

(** The invariant of the pool: it has as many workers as configured. *)
Definition pool_inv (env_value : option string) (p : WorkerPool.Pool) : Prop :=
  pool_wf env_value p
  /\ length (WorkerPool.workers p) = WorkerPool.numThreads p
  /\ (WorkerPool.numThreads p = 0%nat -> WorkerPool.constructed p = 0%nat).

(** The functions the import table binds to [notImplemented]. *)
Definition not_implemented : list string :=
  [ "block_timestamp"; "epoch_height"; "storage_usage";
    "account_balance"; "account_locked_balance";
    "random_seed"; "sha256"; "keccak256"; "keccak512";
    "storage_has_key"; "validator_stake"; "validator_total_stake" ].

(** Bytes that are whole 16-bit units, none of them zero. *)
Fixpoint no_zero_unit (bs : list byte) : bool :=
  match bs with
  | lo :: hi :: rest => negb (Byte.eqb lo x00 && Byte.eqb hi x00) && no_zero_unit rest
  | [] => true
  | [_] => false
  end.

(** The request of a storage read, as the pool's message handler tells it
    from a completion message. *)
Definition is_storage_request (m : Worker.Message) : Prop :=
  Worker.msg_methodName m = Some "storage_read"
  /\ Worker.msg_result m = None /\ Worker.msg_error m = None
  /\ Worker.msg_logs m = None /\ is_Some (Worker.msg_compKey m).

(** What no host function and no guest step changes: the identity of the
    call and the size of the memory; logs and posted messages only grow,
    and what is posted during a run are storage requests. *)
Definition host_keeps (st st' : Worker.State) : Prop :=
  Worker.blockHeight (Worker.ctx st') = Worker.blockHeight (Worker.ctx st)
  /\ Worker.contractId (Worker.ctx st') = Worker.contractId (Worker.ctx st)
  /\ Worker.methodArgs (Worker.ctx st') = Worker.methodArgs (Worker.ctx st)
  /\ length (Worker.memory (Worker.ctx st')) = length (Worker.memory (Worker.ctx st))
  /\ (exists more, Worker.logs (Worker.ctx st') = Worker.logs (Worker.ctx st) ++ more)
  /\ (exists requests,
        Worker.posted st' = Worker.posted st ++ requests
        /\ Forall is_storage_request requests).

(** A memory holding the strings [oops] (at 0) and [a.ts] (at 10) as
    zero-terminated UTF-16. *)
Definition abort_state : Worker.State :=
  Worker.mkState
    (Worker.mkCtx 10 "alice.test" [] []
       [x6f; x00; x6f; x00; x70; x00; x73; x00; x00; x00;
        x61; x00; x2e; x00; x74; x00; x73; x00; x00; x00] None)
    ∅ [] [].

(** Every timer handle kept for a task was handed out before the next
    one to hand out. *)
Definition handles_fresh (p : WorkerPool.Pool) : Prop :=
  forall worker info,
    WorkerPool.kTaskInfo p !! worker = Some info ->
    (WorkerPool.ti_timeoutHandle info < WorkerPool.next_timer p)%nat.

(** [runContract] called for each task of a list, in order. *)
Definition submit_all (env_value : option string) (ts : list Worker.Task)
    (p : WorkerPool.Pool) : WorkerPool.Pool :=
  fold_left (fun p t => (WorkerPool.runContract env_value t p).2) ts p.

(** * Properties *)

Import Js Worker.

(** ** [Number] on the values that matter for memory ranges *)

Lemma Number_exact (z : Z) : Z.abs z <= 2 ^ 53 -> Number z = z.
Proof.
  intros Hz. unfold Number.
  destruct (Z.abs z <? 2 ^ 53) eqn:E; [reflexivity|].
  apply Z.ltb_ge in E.
  assert (Ha : Z.abs z = 2 ^ 53) by lia.
  rewrite Ha.
  destruct (Z.abs_eq_or_opp z) as [Hp | Hn].
  - assert (z = 2 ^ 53) by lia. subst z. reflexivity.
  - assert (z = - 2 ^ 53) by lia. subst z. reflexivity.
Qed.

Lemma Number_large (z : Z) : 2 ^ 53 <= z -> 2 ^ 53 <= Number z.
Proof.
  intros Hz. unfold Number.
  assert (Habs : Z.abs z = z) by lia. rewrite Habs.
  destruct (z <? 2 ^ 53) eqn:E; [apply Z.ltb_lt in E; lia|].
  assert (Hlog : 53 <= Z.log2 z) by (apply Z.log2_le_pow2; lia).
  destruct (Z.log2_spec z) as [Hlo Hhi]; [lia|].
  set (k := Z.log2 z - 52) in *.
  assert (Hk : 1 <= k) by lia.
  assert (Hpow : 2 ^ Z.log2 z = 2 ^ 52 * 2 ^ k).
  { replace (Z.log2 z) with (52 + k) by lia. apply Z.pow_add_r; lia. }
  assert (Hkpos : 0 < 2 ^ k) by (apply Z.pow_pos_nonneg; lia).
  assert (Hq : 2 ^ 52 <= z / 2 ^ k).
  { apply Z.div_le_lower_bound; lia. }
  assert (H2k : 2 <= 2 ^ k).
  { change 2 with (2 ^ 1) at 1. apply Z.pow_le_mono_r; lia. }
  assert (Hsgn : Z.sgn z = 1) by (apply Z.sgn_pos; lia). rewrite Hsgn.
  assert (Hbase : 2 ^ 53 <= z / 2 ^ k * 2 ^ k).
  { change (2 ^ 53) with (2 ^ 52 * 2). nia. }
  repeat match goal with |- context [if ?b then _ else _] => destruct b end; nia.
Qed.

Lemma Number_nonneg (z : Z) : 0 <= z -> 0 <= Number z.
Proof.
  intros Hz. destruct (Z_lt_le_dec z (2 ^ 53)).
  - rewrite Number_exact by lia. lia.
  - pose proof (Number_large z). lia.
Qed.

(** ** [Number] is odd-symmetric and keeps the sign *)

Lemma Number_opp (z : Z) : Number (- z) = - Number z.
Proof.
  unfold Number. rewrite Z.abs_opp, Z.sgn_opp.
  destruct (Z.abs z <? 2 ^ 53); [reflexivity|].
  repeat match goal with |- context [if ?b then _ else _] => destruct b end; ring.
Qed.

Lemma Number_pos (z : Z) : 0 < z -> 0 < Number z.
Proof.
  intros Hz. destruct (Z_lt_le_dec z (2 ^ 53)).
  - rewrite Number_exact by lia. exact Hz.
  - pose proof (Number_large z). lia.
Qed.

Lemma Number_neg (z : Z) : z < 0 -> Number z < 0.
Proof.
  intros Hz. replace z with (- - z) by lia. rewrite Number_opp.
  pose proof (Number_pos (- z)). lia.
Qed.

Lemma Number_small (z : Z) : 0 <= z -> Number z <= 2 ^ 53 - 1 -> Number z = z.
Proof.
  intros Hz Hsmall. destruct (Z_lt_le_dec z (2 ^ 53)).
  - apply Number_exact. lia.
  - pose proof (Number_large z). lia.
Qed.

(** ** The host functions *)

Section HostProperties.
Context {platform : Platform}.

Ltac host_unfold :=
  unfold returns_nothing, returns_u64, push_log, postMessage, memory_bytes,
    throw_error, bind, get, ret, lift, modify, throw, spin.

Lemma Uint8Array_view_in_bounds (mem : list byte) (ptr len : Z) :
  Z.of_nat (length mem) <= MAX_SAFE_INTEGER ->
  0 <= ptr -> 0 <= len -> ptr + len <= Z.of_nat (length mem) ->
  Uint8Array_view mem (Number ptr) (Number len)
  = Normal (take (Z.to_nat len) (drop (Z.to_nat ptr) mem)).
Proof.
  unfold MAX_SAFE_INTEGER. intros Hmem Hptr Hlen Hfit.
  rewrite !Number_exact by lia.
  unfold Uint8Array_view.
  repeat match goal with
         | |- context [?a <? ?b] => destruct (Z.ltb_spec a b); try lia
         end.
  reflexivity.
Qed.

Lemma memory_bytes_in_bounds (st : State) (len ptr : Z) :
  Z.of_nat (length (memory (ctx st))) <= MAX_SAFE_INTEGER ->
  0 <= ptr -> 0 <= len -> ptr + len <= Z.of_nat (length (memory (ctx st))) ->
  memory_bytes len ptr st
  = (Normal (take (Z.to_nat len) (drop (Z.to_nat ptr) (memory (ctx st)))), st).
Proof.
  intros. host_unfold. rewrite Uint8Array_view_in_bounds by assumption. reflexivity.
Qed.

(** The view either gives bytes or throws; it always returns. *)
Lemma memory_bytes_cases (st : State) (len ptr : Z) :
  (exists bytes, memory_bytes len ptr st = (Normal bytes, st))
  \/ (exists e, memory_bytes len ptr st = (Throw e, st)).
Proof.
  host_unfold. unfold Uint8Array_view.
  repeat match goal with
         | |- context [if ?b then _ else _] => destruct b
         end; cbn; eauto.
Qed.

Lemma Buffer_toString_known (buf : list byte) (name : string) (enc : Encoding) :
  getEncodingOps name = Some enc -> Buffer_toString buf name = Normal (decode enc buf).
Proof.
  intros Hname. unfold Buffer_toString. rewrite Hname.
  destruct buf; [rewrite decode_empty|]; reflexivity.
Qed.

(** [log_utf8] on a range inside the memory appends the decoded text and
    returns. *)
Lemma log_utf8_appends (st : State) (len ptr : Z) :
  Z.of_nat (length (memory (ctx st))) <= MAX_SAFE_INTEGER ->
  0 <= ptr -> 0 <= len -> ptr + len <= Z.of_nat (length (memory (ctx st))) ->
  log_utf8 len ptr st
  = (Normal tt,
     with_ctx (with_logs
                 (logs (ctx st)
                  ++ [decode Utf8 (take (Z.to_nat len) (drop (Z.to_nat ptr) (memory (ctx st))))])
                 (ctx st)) st).
Proof.
  intros. unfold log_utf8.
  unfold bind at 1. rewrite memory_bytes_in_bounds by assumption.
  unfold bind, lift. rewrite (Buffer_toString_known _ "utf8" Utf8) by reflexivity.
  reflexivity.
Qed.

(** C1. [input] stores the raw method arguments in the register and
    returns. [current_account_id] reads [ctx.contract_id], a property the
    context does not have (its property is [contractId]): [Buffer.from]
    throws a TypeError on [undefined], the register is not written and the
    call fails. *)
Theorem current_account_id_throws (st : State) (register_id : Z) :
  ctx_get (ctx st) "contract_id" = JsUndefined
  /\ current_account_id register_id st = (Throw invalid_buffer_source, st)
  /\ input register_id st
     = (Normal tt, with_registers (<[register_id := methodArgs (ctx st)]> (registers st)) st).
Proof. repeat split. Qed.

Lemma log_utf16_shape (st : State) (len ptr : Z) :
  log_utf16 len ptr st
  = match memory_bytes len ptr st with
    | (Normal [], _) =>
        (Normal tt, with_ctx (with_logs (logs (ctx st) ++ [""]) (ctx st)) st)
    | (Normal (_ :: _), _) => (Throw (unknown_encoding "utf16"), st)
    | (Throw e, _) => (Throw e, st)
    | (Diverge, _) => (Diverge, st)
    end.
Proof.
  unfold log_utf16. unfold bind at 1.
  destruct (memory_bytes_cases st len ptr) as [[bytes ->] | [e ->]]; [|reflexivity].
  destruct bytes; reflexivity.
Qed.

(** C3. [log_utf16] asks [toString] for the encoding ['utf16'], a name
    Node's Buffer does not know (it knows ['utf16le'] and ['ucs2']): on
    every range of at least one byte inside the memory it throws instead
    of logging. Only the empty range, for which [toString] answers ['']
    without looking at the encoding, is logged. *)
Theorem log_utf16_throws (st : State) (len ptr : Z) :
  getEncodingOps "utf16" = None
  /\ log_utf16 len ptr st
     = match memory_bytes len ptr st with
       | (Normal [], _) =>
           (Normal tt, with_ctx (with_logs (logs (ctx st) ++ [""]) (ctx st)) st)
       | (Normal (_ :: _), _) => (Throw (unknown_encoding "utf16"), st)
       | (Throw e, _) => (Throw e, st)
       | (Diverge, _) => (Diverge, st)
       end
  /\ log_utf16 5 0 hello_state = (Throw (unknown_encoding "utf16"), hello_state).
Proof.
  split; [reflexivity|]. split; [apply log_utf16_shape | reflexivity].
Qed.

(** On a range of at least one byte inside the memory [log_utf16] throws
    and leaves the logs as they were. *)
Lemma log_utf16_in_bounds_throws (st : State) (len ptr : Z) :
  Z.of_nat (length (memory (ctx st))) <= MAX_SAFE_INTEGER ->
  0 <= ptr -> 0 < len -> ptr + len <= Z.of_nat (length (memory (ctx st))) ->
  log_utf16 len ptr st = (Throw (unknown_encoding "utf16"), st).
Proof.
  intros Hmem Hptr Hlen Hfit.
  rewrite log_utf16_shape.
  rewrite memory_bytes_in_bounds by (assumption || lia).
  destruct (take (Z.to_nat len) (drop (Z.to_nat ptr) (memory (ctx st)))) eqn:E; [|reflexivity].
  apply (f_equal length) in E. rewrite length_take, length_drop in E. cbn in E. lia.
Qed.

Lemma list_byte_of_string_app (s1 s2 : string) :
  String.list_byte_of_string (s1 +:+ s2)
  = String.list_byte_of_string s1 ++ String.list_byte_of_string s2.
Proof.
  unfold String.list_byte_of_string.
  induction s1 as [|a s1 IH]; [reflexivity|].
  change (String a s1 +:+ s2) with (String a (s1 +:+ s2)).
  cbn. f_equal. exact IH.
Qed.

Lemma compKey_bytes (c : Ctx) (key : list byte) :
  compKey c key = Normal (String.list_byte_of_string (contractId c) ++ [x3a] ++ key).
Proof.
  unfold compKey. cbn.
  rewrite list_byte_of_string_app, app_nil_r, <- app_assoc. reflexivity.
Qed.


(** C8, as the code has it. Each function the specification lists as
    prohibited for view calls throws, whatever its arguments, the error
    [method not available for view calls: <name>], and leaves the state
    (registers, memory, logs, result, posted messages) as it was. The
    error ends the run of a guest that does not catch it; a guest that
    calls the function inside a [try] block goes on in its handler, in the
    same state. The message differs from that of every unimplemented
    function. *)
Theorem prohibited_in_view_fails :
  Forall (fun name =>
            forall (args : list Z) (st : State),
              call_import name args st
              = (Throw (mkException Error ("method not available for view calls: " +:+ name)),
                 st)
              /\ (forall k : option Z -> Guest,
                    run (CallImport name args k) st
                    = (Throw (mkException Error
                                ("method not available for view calls: " +:+ name)),
                       st))
              /\ (forall (k : option Z -> Guest) (handler : Guest),
                    run (TryImport name args k handler) st = run handler st))
         prohibited_for_view
  /\ (forall name name' args args' st st',
        (prohibitedInView name args st).1 <> (notImplemented name' args' st').1).
Proof.
  split.
  - unfold prohibited_for_view.
    repeat (apply Forall_cons; split;
            [intros args st; split; [|split; [intros k | intros k handler]]; reflexivity|]).
    constructor.
  - intros name name' args args' st st'. cbn. intros Heq. discriminate Heq.
Qed.

(** *** [value_return] *)

Lemma min_Number (z len : Z) :
  0 <= z -> len <= MAX_SAFE_INTEGER -> Z.min (Number z) len = Z.min z len.
Proof.
  unfold MAX_SAFE_INTEGER. intros Hz Hlen.
  destruct (Z_lt_le_dec z (2 ^ 53)).
  - rewrite Number_exact by lia. reflexivity.
  - pose proof (Number_large z). lia.
Qed.

(** For a range given by a non-negative pointer and length, the slice is
    the part of the range that lies inside the memory. *)
Lemma slice_range (mem : list byte) (ptr len : Z) :
  Z.of_nat (length mem) <= MAX_SAFE_INTEGER -> 0 <= ptr -> 0 <= len ->
  Uint8Array_slice mem (Number ptr) (Number (ptr + len))
  = take (Z.to_nat len) (drop (Z.to_nat ptr) mem).
Proof.
  intros Hmem Hptr Hlen. unfold Uint8Array_slice, relative_index.
  pose proof (Number_nonneg ptr Hptr) as Hn1.
  pose proof (Number_nonneg (ptr + len) ltac:(lia)) as Hn2.
  destruct (Z.ltb_spec (Number ptr) 0); [lia|].
  destruct (Z.ltb_spec (Number (ptr + len)) 0); [lia|].
  rewrite !min_Number by lia.
  set (L := Z.of_nat (length mem)) in *.
  destruct (Z_le_gt_dec L ptr) as [Hpast | Hin].
  - (* the range starts at or past the end *)
    rewrite (Z.min_r ptr L) by lia.
    rewrite !drop_ge by (subst L; lia).
    rewrite !take_nil. reflexivity.
  - rewrite (Z.min_l ptr L) by lia.
    destruct (Z_le_gt_dec (ptr + len) L) as [Hfit | Hover].
    + rewrite Z.min_l by lia. f_equal. lia.
    + rewrite Z.min_r by lia.
      rewrite !take_ge; [reflexivity| |]; rewrite length_drop; subst L; lia.
Qed.

Lemma value_return_range (st : State) (value_len value_ptr : Z) :
  Z.of_nat (length (memory (ctx st))) <= MAX_SAFE_INTEGER ->
  0 <= value_ptr -> 0 <= value_len ->
  value_return value_len value_ptr st
  = (Normal tt,
     with_ctx (with_result
                 (Some (take (Z.to_nat value_len)
                          (drop (Z.to_nat value_ptr) (memory (ctx st)))))
                 (ctx st)) st).
Proof.
  intros. unfold value_return. host_unfold. cbn.
  rewrite slice_range by assumption. reflexivity.
Qed.

(** [value_return] never fails, and a later call replaces the result of
    an earlier one. *)
Lemma value_return_last_wins (st : State) (len1 ptr1 len2 ptr2 : Z) :
  exists st1,
    value_return len1 ptr1 st = (Normal tt, st1)
    /\ value_return len2 ptr2 st1
       = (Normal tt,
          with_ctx (with_result
                      (Some (Uint8Array_slice (memory (ctx st)) (Number ptr2) (Number (ptr2 + len2))))
                      (ctx st1)) st1)
    /\ result (ctx (value_return len2 ptr2 st1).2) = result (ctx (value_return len2 ptr2 st).2).
Proof.
  exists (value_return len1 ptr1 st).2.
  split; [reflexivity|]. split; reflexivity.
Qed.

(** [Number] rounds only what lies outside every memory, so [slice] sees
    the ends the guest passed. *)
Lemma relative_index_Number (size z : Z) :
  0 <= size <= MAX_SAFE_INTEGER ->
  relative_index size (Number z) = relative_index size z.
Proof.
  unfold MAX_SAFE_INTEGER. intros Hsize. unfold relative_index.
  destruct (Z_lt_le_dec z 0) as [Hneg | Hpos].
  - pose proof (Number_neg z Hneg) as Hn.
    destruct (Z.ltb_spec (Number z) 0); [|lia].
    destruct (Z.ltb_spec z 0); [|lia].
    destruct (Z_lt_le_dec (- 2 ^ 53) z).
    + rewrite Number_exact by lia. reflexivity.
    + pose proof (Number_large (- z) ltac:(lia)) as Hl.
      rewrite Number_opp in Hl. lia.
  - pose proof (Number_nonneg z Hpos) as Hn.
    destruct (Z.ltb_spec (Number z) 0); [lia|].
    destruct (Z.ltb_spec z 0); [lia|].
    apply min_Number; unfold MAX_SAFE_INTEGER; lia.
Qed.

(** C10, as the code has it. [value_return] returns normally whatever its
    arguments. The result holds the bytes between the two ends [ptr] and
    [ptr + len] as [slice] takes them: a negative end counts from the end
    of the memory, and both are clamped to the memory. For a pointer and
    a length that are not negative this is the part of the range inside
    the memory: shorter than the range when the range runs past the end,
    and empty when it starts past the end. *)
Theorem value_return_clamps (st : State) (value_len value_ptr : Z) :
  let mem := memory (ctx st) in
  let size := Z.of_nat (length mem) in
  let from_end (i : Z) := if i <? 0 then Z.max (size + i) 0 else Z.min i size in
  let first := from_end value_ptr in
  let final := from_end (value_ptr + value_len) in
  let stored := take (Z.to_nat (final - first)) (drop (Z.to_nat first) mem) in
  size <= MAX_SAFE_INTEGER ->
  value_return value_len value_ptr st
  = (Normal tt, with_ctx (with_result (Some stored) (ctx st)) st)
  /\ (0 <= value_ptr -> 0 <= value_len ->
      stored = take (Z.to_nat value_len) (drop (Z.to_nat value_ptr) mem)
      /\ Z.of_nat (length stored) <= value_len
      /\ (size < value_ptr + value_len ->
          stored = drop (Z.to_nat value_ptr) mem
          /\ Z.of_nat (length stored) = Z.max (size - value_ptr) 0
          /\ (0 < value_len -> Z.of_nat (length stored) < value_len))
      /\ (size <= value_ptr -> stored = [])).
Proof.
  intros mem size from_end first final stored Hmem.
  assert (Hslice : Uint8Array_slice mem (Number value_ptr) (Number (value_ptr + value_len))
                   = stored).
  { unfold Uint8Array_slice. fold size.
    rewrite !relative_index_Number by (subst size; lia).
    subst stored first final from_end. unfold relative_index. cbv beta.
    f_equal. lia. }
  split.
  { unfold value_return. host_unfold. cbn. fold mem. rewrite Hslice. reflexivity. }
  intros Hptr Hlen.
  assert (Hin : stored = take (Z.to_nat value_len) (drop (Z.to_nat value_ptr) mem)).
  { rewrite <- Hslice. apply slice_range; assumption. }
  split; [exact Hin|].
  split.
  { rewrite Hin, length_take. lia. }
  split.
  - intros Hover.
    assert (Hdrop : stored = drop (Z.to_nat value_ptr) mem).
    { rewrite Hin. apply take_ge. rewrite length_drop. subst size. lia. }
    split; [exact Hdrop|].
    rewrite Hdrop, length_drop. subst size. lia.
  - intros Hpast. rewrite Hin, drop_ge by (subst size; lia). apply take_nil.
Qed.

(** *** Registers *)

(** C6, as the code has it. In every state, whatever the size of the
    memory, a register never written reports the length [2^64 - 1] and a
    written one its byte length. [read_register] copies the bytes of the
    register to [ptr] when they fit in the memory there, and for an unset
    register and a pointer inside the memory it changes nothing and
    returns. *)
Theorem register_len_and_read_register (st : State) (register_id ptr : Z) :
  let mem := memory (ctx st) in
  let bytes := default [] (registers st !! register_id) in
  let mem' := take (Z.to_nat ptr) mem ++ bytes ++ drop (Z.to_nat ptr + length bytes) mem in
  register_len register_id st
  = (Normal (match registers st !! register_id with
             | Some r => Z.of_nat (length r)
             | None => 2 ^ 64 - 1
             end), st)
  /\ (Z.of_nat (length mem) <= MAX_SAFE_INTEGER ->
      0 <= ptr -> ptr + Z.of_nat (length bytes) <= Z.of_nat (length mem) ->
      read_register register_id ptr st = (Normal tt, with_ctx (with_memory mem' (ctx st)) st)
      /\ take (length bytes) (drop (Z.to_nat ptr) mem') = bytes
      /\ length mem' = length mem
      /\ match registers st !! register_id with
         | Some _ => True
         | None => mem' = mem
         end).
Proof.
  intros mem bytes mem'.
  split.
  { unfold register_len. host_unfold. destruct (registers st !! register_id); reflexivity. }
  intros Hmem Hptr Hfit.
  split.
  { unfold read_register. host_unfold. subst mem' bytes.
    unfold MAX_SAFE_INTEGER in Hmem.
    change (Buffer_from (JsNumbers [])) with (Normal (@nil byte)).
    destruct (registers st !! register_id) as [r|]; cbn in Hfit |- *;
      rewrite Number_exact by lia; unfold Uint8Array_set; fold mem;
      (destruct (Z.ltb_spec ptr 0); [lia|]);
      match goal with
      | |- context [?a <? ?b + ptr] => destruct (Z.ltb_spec a (b + ptr)); [cbn in *; lia|]
      end; reflexivity. }
  assert (Htake : length (take (Z.to_nat ptr) mem) = Z.to_nat ptr).
  { rewrite length_take. lia. }
  split.
  { subst mem'. rewrite drop_app_length' by (symmetry; exact Htake).
    rewrite take_app_length. reflexivity. }
  split.
  { subst mem'. rewrite !length_app, Htake, length_drop. lia. }
  destruct (registers st !! register_id) eqn:E; [exact I|].
  subst mem' bytes. cbn. rewrite Nat.add_0_r. apply take_drop.
Qed.

End HostProperties.

(** ** The worker pool *)

Import WorkerPool.

Section PoolProperties.
Context {client : StorageClient}.
Variable env_value : option string.

Lemma pop_spec {A} (l : list A) (x : A) (rest : list A) :
  pop l = Some (x, rest) -> l = rest ++ [x].
Proof.
  unfold pop. destruct (reverse l) as [|y r] eqn:E; [discriminate|].
  intros [= <- <-].
  apply (f_equal reverse) in E. rewrite reverse_involutive in E.
  rewrite E, reverse_cons. reflexivity.
Qed.

Lemma same_frame_refl (p : Pool) : same_frame p p.
Proof. repeat split. Qed.

Lemma same_frame_trans (p q r : Pool) : same_frame p q -> same_frame q r -> same_frame p r.
Proof.
  unfold same_frame. intros (? & ? & ? & ? & ? & ?) (? & ? & ? & ? & ? & ?).
  repeat split; congruence.
Qed.

Lemma start_frame (t : Task) (promise : PromiseId) (p : Pool) :
  same_frame p (start env_value t promise p).
Proof.
  unfold start. destruct (pop (freeWorkers p)) as [[w rest]|]; repeat split.
Qed.

(** A property kept by [start] holds after the waiting callers have been
    retried. *)
Lemma emit_freed_ind (P : Pool -> Prop) (p : Pool) :
  (forall t promise q, P q -> P (start env_value t promise q)) ->
  P (set_freed_listeners p []) -> P (emit_freed env_value p).
Proof.
  intros Hstart. unfold emit_freed.
  generalize (set_freed_listeners p []).
  induction (freed_listeners p) as [|[t promise] l IH]; cbn; auto.
Qed.

Lemma emit_freed_frame (p : Pool) : same_frame p (emit_freed env_value p).
Proof.
  apply emit_freed_ind.
  - intros t promise q Hq. eapply same_frame_trans; [exact Hq | apply start_frame].
  - repeat split.
Qed.

Ltac split_wf := split; [|split; [|split; [|split]]].

Lemma start_wf (t : Task) (promise : PromiseId) (p : Pool) :
  pool_wf env_value p -> pool_wf env_value (start env_value t promise p).
Proof.
  intros (Hnd & Hw & Hf & Ht & Htm). unfold start.
  destruct (pop (freeWorkers p)) as [[w rest]|] eqn:E.
  - apply pop_spec in E. rewrite E in Hf. apply Forall_app in Hf as [Hrest Hlast].
    apply Forall_cons in Hlast as [Hlast _].
    split_wf; cbn; auto.
    intros timer worker delay Hl.
    rewrite lookup_insert in Hl. case_decide.
    + injection Hl as <- <-. split; [exact Hlast | reflexivity].
    + eapply Htm. exact Hl.
  - split_wf; cbn; auto.
Qed.

Lemma emit_freed_wf (p : Pool) :
  pool_wf env_value p -> pool_wf env_value (emit_freed env_value p).
Proof.
  intros Hwf. apply emit_freed_ind; [intros; apply start_wf; assumption|].
  exact Hwf.
Qed.

Lemma Forall_lt_S (l : list nat) (n : nat) :
  Forall (fun w => w < n)%nat l -> Forall (fun w => w < S n)%nat l.
Proof. intros Hl. eapply Forall_impl; [exact Hl|]. cbn. intros; lia. Qed.

Lemma NoDup_snoc_fresh (l : list nat) (n : nat) :
  NoDup l -> Forall (fun w => w < n)%nat l -> NoDup (l ++ [n]).
Proof.
  intros Hnd Hlt. apply NoDup_app. split; [exact Hnd|]. split; [|apply NoDup_singleton].
  intros x Hx Hx'. apply list_elem_of_singleton in Hx'. subst x.
  rewrite Forall_forall in Hlt. specialize (Hlt _ Hx). lia.
Qed.

Lemma addNewWorker_spec (p : Pool) :
  workers (addNewWorker env_value p) = workers p ++ [constructed p]
  /\ constructed (addNewWorker env_value p) = S (constructed p)
  /\ numThreads (addNewWorker env_value p) = numThreads p
  /\ terminated (addNewWorker env_value p) = terminated p
  /\ promises (addNewWorker env_value p) = promises p.
Proof.
  unfold addNewWorker.
  destruct (emit_freed_frame
              (set_freeWorkers
                 (set_workers (set_constructed p (S (constructed p)))
                    (workers (set_constructed p (S (constructed p))) ++ [constructed p]))
                 (freeWorkers
                    (set_workers (set_constructed p (S (constructed p)))
                       (workers (set_constructed p (S (constructed p))) ++ [constructed p]))
                  ++ [constructed p])))
    as (Hn & Hw & Hc & Ht & Hp & _).
  repeat split; assumption.
Qed.

Lemma addNewWorker_wf (p : Pool) :
  pool_wf env_value p -> pool_wf env_value (addNewWorker env_value p).
Proof.
  intros (Hnd & Hw & Hf & Ht & Htm). unfold addNewWorker.
  apply emit_freed_wf. split_wf; cbn.
  - apply NoDup_snoc_fresh; assumption.
  - apply Forall_app. split; [apply Forall_lt_S; assumption|].
    apply Forall_cons. split; [lia | constructor].
  - apply Forall_app. split; [apply Forall_lt_S; assumption|].
    apply Forall_cons. split; [lia | constructor].
  - apply Forall_lt_S; assumption.
  - intros timer worker delay Hl. destruct (Htm _ _ _ Hl). split; [lia | assumption].
Qed.

(** *** [indexOf] and [splice] as the error handler uses them *)

Lemma indexOf_bounds (w : WorkerId) (l : list WorkerId) :
  -1 <= indexOf w l < Z.of_nat (length l).
Proof.
  induction l as [|x l IH]; cbn; [lia|].
  destruct (decide (x = w)); [lia|].
  destruct (Z.ltb_spec (indexOf w l) 0); lia.
Qed.

Lemma indexOf_elem (w : WorkerId) (l : list WorkerId) :
  w ∈ l -> 0 <= indexOf w l /\ l !! Z.to_nat (indexOf w l) = Some w.
Proof.
  induction l as [|x l IH]; intros Hin; [inversion Hin|].
  cbn. destruct (decide (x = w)) as [->|Hne]; [split; [lia | reflexivity]|].
  apply elem_of_cons in Hin as [Heq | Hin]; [congruence|].
  destruct (IH Hin) as [Hpos Hlook].
  destruct (Z.ltb_spec (indexOf w l) 0); [lia|].
  split; [lia|].
  replace (Z.to_nat (indexOf w l + 1)) with (S (Z.to_nat (indexOf w l))) by lia.
  exact Hlook.
Qed.

(** [splice(indexOf(w), 1)] removes one element of a non-empty array: [w]
    when it is there, the last element otherwise. *)
Lemma splice_indexOf (w : WorkerId) (l : list WorkerId) :
  l <> [] ->
  exists a : nat,
    (a < length l)%nat
    /\ splice (indexOf w l) 1 l = take a l ++ drop (S a) l
    /\ (w ∈ l -> l !! a = Some w).
Proof.
  intros Hne.
  assert (Hlen : (0 < length l)%nat) by (destruct l; [congruence | cbn; lia]).
  pose proof (indexOf_bounds w l) as Hb.
  unfold splice.
  destruct (Z.ltb_spec (indexOf w l) 0) as [Hneg | Hpos].
  - exists (length l - 1)%nat. split; [lia|]. split.
    + assert (Hi : indexOf w l = -1) by lia. rewrite Hi.
      f_equal; f_equal; lia.
    + intros Hin. destruct (indexOf_elem w l Hin). lia.
  - exists (Z.to_nat (indexOf w l)). split; [lia|]. split.
    + f_equal; f_equal; lia.
    + intros Hin. apply (indexOf_elem w l Hin).
Qed.

Lemma remove_at_sublist {A} (a : nat) (l : list A) : sublist (take a l ++ drop (S a) l) l.
Proof.
  rewrite <- (take_drop a l) at 3.
  apply sublist_app; [reflexivity|].
  replace (S a) with (a + 1)%nat by lia. rewrite <- drop_drop. apply sublist_drop.
Qed.

Lemma remove_at_length {A} (a : nat) (l : list A) :
  (a < length l)%nat -> length (take a l ++ drop (S a) l) = (length l - 1)%nat.
Proof. intros Ha. rewrite length_app, length_take, length_drop. lia. Qed.

Lemma remove_at_absent {A} (a : nat) (l : list A) (x : A) :
  NoDup l -> l !! a = Some x -> x ∉ take a l ++ drop (S a) l.
Proof.
  intros Hnd Hx.
  rewrite <- (take_drop_middle l a x Hx) in Hnd.
  apply NoDup_app in Hnd as (_ & Hdisj & Hnd).
  apply NoDup_cons in Hnd as [Hnot _].
  intros Hin. apply elem_of_app in Hin as [Hin | Hin].
  - apply (Hdisj x Hin). left.
  - exact (Hnot Hin).
Qed.

(** *** [close] *)

Lemma close_spec (p : Pool) : close p = set_terminated p (terminated p ++ workers p).
Proof.
  unfold close. generalize (workers p) as l. intros l. revert p.
  induction l as [|w l IH]; intros p.
  - cbn. rewrite app_nil_r. destruct p; reflexivity.
  - cbn. rewrite IH. unfold terminate, set_terminated. cbn.
    rewrite <- app_assoc. reflexivity.
Qed.

(** *** The invariant holds in every reachable state *)

Lemma pool_inv_frame (p p' : Pool) :
  numThreads p' = numThreads p -> workers p' = workers p ->
  constructed p' = constructed p ->
  pool_wf env_value p' -> pool_inv env_value p -> pool_inv env_value p'.
Proof.
  intros Hn Hw Hc Hwf (_ & Hlen & Hzero).
  split; [exact Hwf|]. rewrite Hn, Hw, Hc. split; assumption.
Qed.

Ltac wf_fields Hwf :=
  destruct Hwf as (? & ? & ? & ? & ?); split_wf; cbn; auto.

Lemma settle_wf (promise : PromiseId) (s : Settlement) (p : Pool) :
  pool_wf env_value p -> pool_wf env_value (settle promise s p).
Proof.
  intros Hwf. unfold settle. destruct (promises p !! promise); [exact Hwf|].
  wf_fields Hwf.
Qed.

Lemma settle_fields (promise : PromiseId) (s : Settlement) (p : Pool) :
  numThreads (settle promise s p) = numThreads p
  /\ workers (settle promise s p) = workers p
  /\ constructed (settle promise s p) = constructed p
  /\ terminated (settle promise s p) = terminated p
  /\ kTaskInfo (settle promise s p) = kTaskInfo p
  /\ error_listener (settle promise s p) = error_listener p.
Proof. unfold settle. destruct (promises p !! promise); repeat split. Qed.

Lemma on_worker_message_fields (worker : WorkerId) (m : Message) (p : Pool) :
  let p' := on_worker_message env_value worker m p in
  numThreads p' = numThreads p /\ workers p' = workers p
  /\ constructed p' = constructed p /\ terminated p' = terminated p.
Proof.
  unfold on_worker_message.
  destruct (kTaskInfo p !! worker) as [info|]; [|repeat split].
  match goal with
  | |- context [if truthy_string (msg_methodName m) then p else ?q] =>
      assert (Hq : same_frame p (if truthy_string (msg_methodName m) then p else q));
      [destruct (truthy_string (msg_methodName m));
       [apply same_frame_refl
       |eapply same_frame_trans; [|apply emit_freed_frame]; repeat split]
      |generalize dependent (if truthy_string (msg_methodName m) then p else q)]
  end.
  intros q (Hn & Hw & Hc & Ht & _ & _).
  destruct (msg_error m) as [error|].
  { destruct (settle_fields (ti_promise info) (Rejected error) q) as (-> & -> & -> & -> & _).
    repeat split; assumption. }
  destruct (msg_result m) as [result|].
  { destruct (settle_fields (ti_promise info) (Resolved result (msg_logs m)) q)
      as (-> & -> & -> & -> & _).
    repeat split; assumption. }
  destruct (msg_methodName m) as [name|], (msg_compKey m) as [key|];
    try (repeat split; assumption).
  destruct (String.eqb name "storage_read"); repeat split; assumption.
Qed.

Lemma on_worker_message_wf (worker : WorkerId) (m : Message) (p : Pool) :
  (worker < constructed p)%nat ->
  pool_wf env_value p -> pool_wf env_value (on_worker_message env_value worker m p).
Proof.
  intros Hworker Hwf. unfold on_worker_message.
  destruct (kTaskInfo p !! worker) as [info|]; [|wf_fields Hwf].
  match goal with
  | |- context [if truthy_string (msg_methodName m) then p else ?q] =>
      assert (Hq : pool_wf env_value (if truthy_string (msg_methodName m) then p else q));
      [destruct (truthy_string (msg_methodName m)); [exact Hwf|]
      |generalize dependent (if truthy_string (msg_methodName m) then p else q)]
  end.
  { apply emit_freed_wf. destruct Hwf as (Hnd & Hw & Hf & Ht & Htm).
    split_wf; cbn; auto.
    - apply Forall_app. split; [exact Hf|]. apply Forall_cons. split; [exact Hworker | constructor].
    - intros timer w delay Hl. rewrite lookup_delete in Hl.
      case_decide; [discriminate|]. eapply Htm. exact Hl. }
  intros q Hq.
  destruct (msg_error m) as [error|]; [apply settle_wf; exact Hq|].
  destruct (msg_result m) as [result|]; [apply settle_wf; exact Hq|].
  destruct (msg_methodName m) as [name|], (msg_compKey m) as [key|]; try exact Hq.
  destruct (String.eqb name "storage_read"); [|exact Hq].
  wf_fields Hq.
Qed.

(** The replacement of a worker by the error handler. *)
Lemma replace_worker_inv (worker : WorkerId) (p : Pool) :
  (worker < constructed p)%nat -> pool_inv env_value p ->
  pool_inv env_value
    (addNewWorker env_value
       (set_workers p (splice (indexOf worker (workers p)) 1 (workers p)))).
Proof.
  intros Hworker ((Hnd & Hw & Hf & Ht & Htm) & Hlen & Hzero).
  assert (Hne : workers p <> []).
  { intros Hnil. rewrite Hnil in Hlen. cbn in Hlen. symmetry in Hlen.
    specialize (Hzero Hlen). lia. }
  destruct (splice_indexOf worker (workers p) Hne) as (a & Ha & Hsplice & _).
  rewrite Hsplice.
  pose proof (remove_at_sublist a (workers p)) as Hsub.
  set (q := set_workers p (take a (workers p) ++ drop (S a) (workers p))).
  assert (Hq : pool_wf env_value q).
  { subst q. split_wf; cbn; auto.
    - eapply sublist_NoDup; eassumption.
    - apply Forall_forall. intros x Hx. rewrite Forall_forall in Hw.
      apply Hw. eapply elem_of_sublist; eassumption. }
  destruct (addNewWorker_spec q) as (Hw' & Hc' & Hn' & _).
  split; [apply addNewWorker_wf; exact Hq|].
  rewrite Hw', Hc', Hn'. subst q. cbn.
  rewrite length_app, remove_at_length by exact Ha. cbn.
  split; lia.
Qed.

Lemma on_worker_error_inv (worker : WorkerId) (err : Exception) (p : Pool) :
  (worker < constructed p)%nat -> pool_inv env_value p ->
  pool_inv env_value (on_worker_error env_value worker err p).
Proof.
  intros Hworker Hinv. unfold on_worker_error.
  destruct (kTaskInfo p !! worker) as [info|].
  - match goal with |- context [settle ?a ?b p] => set (q := settle a b p) end.
    destruct (settle_fields (ti_promise info)
                (Rejected (if ti_didTimeout info then timed_out info else err)) p)
      as (Hn & Hw & Hc & _).
    fold q in Hn, Hw, Hc.
    apply replace_worker_inv; [lia|].
    eapply pool_inv_frame; try eassumption.
    apply settle_wf. apply Hinv.
  - destruct (error_listener p).
    + apply (replace_worker_inv worker (set_pool_errors p (pool_errors p ++ [err])));
        [exact Hworker|].
      eapply pool_inv_frame; try exact Hinv; try reflexivity.
      destruct Hinv as [Hwf _]. wf_fields Hwf.
    + eapply pool_inv_frame; try exact Hinv; try reflexivity.
      destruct Hinv as [Hwf _]. wf_fields Hwf.
Qed.

Lemma on_timeout_inv (timer : TimerId) (p : Pool) :
  pool_inv env_value p -> pool_inv env_value (on_timeout timer p).
Proof.
  intros Hinv. unfold on_timeout.
  destruct (timers p !! timer) as [[worker delay]|] eqn:Htimer; [|exact Hinv].
  assert (Hdel : forall t w d,
            delete timer (timers p) !! t = Some (w, d) -> timers p !! t = Some (w, d)).
  { intros t w d Hl. rewrite lookup_delete in Hl. case_decide; [discriminate | exact Hl]. }
  cbn. destruct (kTaskInfo p !! worker) as [info|];
    (eapply pool_inv_frame; try exact Hinv; try reflexivity);
    destruct Hinv as [(Hnd & Hw & Hf & Ht & Htm) _]; split_wf; cbn; eauto.
  apply Forall_app. split; [exact Ht|].
  apply Forall_cons. split; [|constructor]. apply (Htm _ _ _ Htimer).
Qed.

Lemma close_inv (p : Pool) : pool_inv env_value p -> pool_inv env_value (close p).
Proof.
  intros Hinv. rewrite close_spec.
  eapply pool_inv_frame; try exact Hinv; try reflexivity.
  destruct Hinv as [(Hnd & Hw & Hf & Ht & Htm) _]; split_wf; cbn; auto.
  apply Forall_app. split; assumption.
Qed.

Lemma new_inv (n : nat) : pool_inv env_value (new env_value n).
Proof.
  unfold new.
  set (p0 := mkPool n [] [] ∅ [] false ∅ ∅ 0%nat 0%nat 0%nat [] [] [] []).
  assert (Hiter : forall k,
            let q := Nat.iter k (addNewWorker env_value) p0 in
            pool_wf env_value q /\ length (workers q) = k
            /\ constructed q = k /\ numThreads q = n).
  { induction k as [|k (Hwf & Hlen & Hc & Hn)].
    - cbn. split; [|repeat split].
      split_wf; cbn; [constructor | constructor | constructor | constructor |].
      intros timer worker delay Hl. rewrite lookup_empty in Hl. discriminate.
    - change (Nat.iter (S k) (addNewWorker env_value) p0)
        with (addNewWorker env_value (Nat.iter k (addNewWorker env_value) p0)).
      cbv zeta in *.
      destruct (addNewWorker_spec (Nat.iter k (addNewWorker env_value) p0))
        as (Hw' & Hc' & Hn' & _).
      split; [apply addNewWorker_wf; exact Hwf|].
      rewrite Hw', Hc', Hn', length_app. cbn. repeat split; lia. }
  destruct (Hiter n) as (Hwf & Hlen & Hc & Hn).
  split; [exact Hwf|]. rewrite Hlen, Hn, Hc. split; [reflexivity | auto].
Qed.

Theorem reachable_inv (p : Pool) : reachable env_value p -> pool_inv env_value p.
Proof.
  induction 1 as [n | p ev Hreach IH Hdel].
  - apply new_inv.
  - destruct ev as [t | worker m | worker err | worker code | timer | |]; cbn in *.
    + eapply pool_inv_frame; try exact IH;
        try apply (start_frame t (next_promise p) (set_next_promise p (S (next_promise p)))).
      apply start_wf. destruct IH as [Hwf _]. wf_fields Hwf.
    + destruct (on_worker_message_fields worker m p) as (Hn & Hw & Hc & _).
      eapply pool_inv_frame; try eassumption.
      apply on_worker_message_wf; [exact Hdel | apply IH].
    + apply on_worker_error_inv; assumption.
    + apply on_worker_error_inv; assumption.
    + apply on_timeout_inv; assumption.
    + eapply pool_inv_frame; try exact IH; try reflexivity.
      destruct IH as [Hwf _]. wf_fields Hwf.
    + apply close_inv; assumption.
Qed.

(** *** Timeouts and termination *)

Lemma on_timeout_fires (p : Pool) (timer : TimerId) (worker : WorkerId)
    (delay : option Z) (info : TaskInfo) :
  timers p !! timer = Some (worker, delay) ->
  kTaskInfo p !! worker = Some info ->
  on_timeout timer p
  = terminate worker
      (set_kTaskInfo (set_timers p (delete timer (timers p)))
         (<[worker := mkTaskInfo (ti_promise info) (ti_blockHeight info) (ti_contractId info)
                        (ti_methodName info) (ti_timeoutHandle info) true]> (kTaskInfo p))).
Proof.
  intros Htimer Hinfo. unfold on_timeout. rewrite Htimer. cbn. rewrite Hinfo. reflexivity.
Qed.

Lemma on_worker_error_busy (p : Pool) (worker : WorkerId) (err : Exception) (info : TaskInfo) :
  kTaskInfo p !! worker = Some info ->
  let q := settle (ti_promise info)
             (Rejected (if ti_didTimeout info then timed_out info else err)) p in
  on_worker_error env_value worker err p
  = addNewWorker env_value (set_workers q (splice (indexOf worker (workers q)) 1 (workers q))).
Proof. intros Hinfo. unfold on_worker_error. rewrite Hinfo. reflexivity. Qed.

(** What the replacement of [worker] does to a pool that satisfies the
    invariant and holds [worker]. *)
Lemma replace_worker_spec (worker : WorkerId) (p : Pool) :
  pool_inv env_value p -> worker ∈ workers p ->
  let p' := addNewWorker env_value
              (set_workers p (splice (indexOf worker (workers p)) 1 (workers p))) in
  (worker ∉ workers p')
  /\ constructed p ∈ workers p'
  /\ constructed p' = S (constructed p)
  /\ length (workers p') = numThreads p
  /\ numThreads p' = numThreads p
  /\ terminated p' = terminated p
  /\ promises p' = promises p.
Proof.
  intros ((Hnd & Hw & Hf & Ht & Htm) & Hlen & Hzero) Hin.
  assert (Hne : workers p <> []) by (intros Hnil; rewrite Hnil in Hin; inversion Hin).
  destruct (splice_indexOf worker (workers p) Hne) as (a & Ha & Hsplice & Hat).
  specialize (Hat Hin). cbv zeta. rewrite Hsplice.
  destruct (addNewWorker_spec (set_workers p (take a (workers p) ++ drop (S a) (workers p))))
    as (Hw' & Hc' & Hn' & Ht' & Hp').
  rewrite Hw', Hc', Hn', Ht', Hp'. cbn.
  assert (Hlt : (worker < constructed p)%nat).
  { rewrite Forall_forall in Hw. apply Hw. exact Hin. }
  repeat split.
  - intros Hmem. apply elem_of_app in Hmem as [Hmem | Hmem].
    + exact (remove_at_absent a (workers p) worker Hnd Hat Hmem).
    + apply list_elem_of_singleton in Hmem. lia.
  - apply elem_of_app. right. apply list_elem_of_singleton. reflexivity.
  - rewrite length_app, remove_at_length by exact Ha. cbn. lia.
Qed.

(** The timeout of a call whose worker is in the list of workers. When
    the timer of the call fires while the call is outstanding, the worker
    is terminated; when its exit is then handled, the caller's promise is
    rejected with the time-out error of the call, the worker
    leaves the pool and a newly constructed worker joins it, so the pool
    has [numThreads] workers again. The delay of the timer is
    [CONTRACT_TIMEOUT_MS], 1000 when the environment does not set it. *)
Theorem timeout_rejects_and_replaces (p : Pool) (timer : TimerId) (worker : WorkerId)
    (delay : option Z) (info : TaskInfo) (code : Z) :
  reachable env_value p ->
  timers p !! timer = Some (worker, delay) ->
  kTaskInfo p !! worker = Some info ->
  worker ∈ workers p ->
  promises p !! ti_promise info = None ->
  let p1 := on_timeout timer p in
  let p2 := on_worker_exit env_value worker code p1 in
  delay = CONTRACT_TIMEOUT_MS env_value
  /\ CONTRACT_TIMEOUT_MS None = Some 1000
  /\ worker ∈ terminated p1
  /\ promises p2 !! ti_promise info = Some (Rejected (timed_out info))
  /\ (worker ∉ workers p2)
  /\ constructed p ∈ workers p2
  /\ (constructed p ∉ terminated p2)
  /\ length (workers p2) = numThreads p2
  /\ numThreads p2 = numThreads p.
Proof.
  intros Hreach Htimer Hinfo Hin Hpending p1 p2.
  pose proof (reachable_inv p Hreach) as Hinv.
  assert (Hinv1 : pool_inv env_value p1) by (apply on_timeout_inv; exact Hinv).
  destruct Hinv as ((Hnd & Hw & Hf & Ht & Htm) & Hlen & Hzero).
  split; [apply (Htm _ _ _ Htimer)|]. split; [reflexivity|].
  assert (Hp1 : p1 = terminate worker
      (set_kTaskInfo (set_timers p (delete timer (timers p)))
         (<[worker := mkTaskInfo (ti_promise info) (ti_blockHeight info) (ti_contractId info)
                        (ti_methodName info) (ti_timeoutHandle info) true]> (kTaskInfo p))))
    by (apply (on_timeout_fires p timer worker delay info); assumption).
  split.
  { rewrite Hp1. cbn. apply elem_of_app. right. apply list_elem_of_singleton. reflexivity. }
  set (info' := mkTaskInfo (ti_promise info) (ti_blockHeight info) (ti_contractId info)
                  (ti_methodName info) (ti_timeoutHandle info) true) in *.
  assert (Hinfo1 : kTaskInfo p1 !! worker = Some info').
  { rewrite Hp1. cbn. apply lookup_insert_eq. }
  assert (Hp2 : p2 = _) by (apply (on_worker_error_busy p1 worker _ info' Hinfo1)).
  cbv zeta in Hp2. cbn [ti_didTimeout ti_promise info'] in Hp2.
  change (timed_out info') with (timed_out info) in Hp2.
  set (q := settle (ti_promise info) (Rejected (timed_out info)) p1) in *.
  destruct (settle_fields (ti_promise info) (Rejected (timed_out info)) p1)
    as (Hqn & Hqw & Hqc & Hqt & _).
  fold q in Hqn, Hqw, Hqc, Hqt.
  assert (Hqinv : pool_inv env_value q).
  { eapply pool_inv_frame; try eassumption. apply settle_wf. apply Hinv1. }
  assert (Hqp : promises q !! ti_promise info = Some (Rejected (timed_out info))).
  { subst q. unfold settle.
    assert (Hnone : promises p1 !! ti_promise info = None) by (rewrite Hp1; exact Hpending).
    rewrite Hnone. cbn. apply lookup_insert_eq. }
  assert (Hw1 : workers q = workers p) by (rewrite Hqw, Hp1; reflexivity).
  assert (Hc1 : constructed q = constructed p) by (rewrite Hqc, Hp1; reflexivity).
  assert (Hn1 : numThreads q = numThreads p) by (rewrite Hqn, Hp1; reflexivity).
  assert (Ht1 : terminated q = terminated p ++ [worker]) by (rewrite Hqt, Hp1; reflexivity).
  destruct (replace_worker_spec worker q Hqinv) as (Habs & Hnew & Hc' & Hlen' & Hn' & Ht' & Hp').
  { rewrite Hw1. exact Hin. }
  rewrite <- Hp2 in Habs, Hnew, Hc', Hlen', Hn', Ht', Hp'.
  rewrite Hc1 in Hnew.
  split; [rewrite Hp'; exact Hqp|]. split; [exact Habs|]. split; [exact Hnew|].
  split.
  { rewrite Ht', Ht1. intros Hmem. apply elem_of_app in Hmem as [Hmem | Hmem].
    - rewrite Forall_forall in Ht. specialize (Ht _ Hmem). lia.
    - apply list_elem_of_singleton in Hmem.
      rewrite Forall_forall in Hw. specialize (Hw _ Hin). lia. }
  split; [rewrite Hlen', Hn'; reflexivity|].
  rewrite Hn', Hn1. reflexivity.
Qed.

(** What [close] does and what follows it, in every reachable state.
    [close] calls [terminate] on every worker of the pool and changes
    nothing else; it leaves no mark that the pool was closed. When the
    exit of a terminated worker is handled (the worker had a task, or the
    pool has an 'error' listener to take the error), the worker is removed
    and a new worker is constructed in its place, which [close] has not
    terminated. *)
Lemma close_terminates_and_exit_replaces (p : Pool) (worker : WorkerId) (code : Z) :
  reachable env_value p ->
  worker ∈ workers p ->
  is_Some (kTaskInfo p !! worker) \/ error_listener p = true ->
  let p1 := close p in
  let p2 := on_worker_exit env_value worker code p1 in
  Forall (fun w => w ∈ terminated p1) (workers p)
  /\ workers p1 = workers p
  /\ constructed p1 = constructed p
  /\ (worker ∉ workers p2)
  /\ constructed p2 = S (constructed p)
  /\ constructed p ∈ workers p2
  /\ (constructed p ∉ terminated p2)
  /\ length (workers p2) = numThreads p.
Proof.
  intros Hreach Hin Hhandled p1 p2.
  pose proof (reachable_inv p Hreach) as Hinv.
  assert (Hinv1 : pool_inv env_value p1) by (apply close_inv; exact Hinv).
  assert (Hp1 : p1 = set_terminated p (terminated p ++ workers p)) by apply close_spec.
  destruct Hinv as ((Hnd & Hw & Hf & Ht & Htm) & Hlen & Hzero).
  split.
  { rewrite Hp1. cbn. apply Forall_forall. intros w Hmem. apply elem_of_app. right. exact Hmem. }
  split; [rewrite Hp1; reflexivity|]. split; [rewrite Hp1; reflexivity|].
  assert (Hfresh : constructed p ∉ terminated p ++ workers p).
  { intros Hmem. apply elem_of_app in Hmem as [Hmem | Hmem].
    - rewrite Forall_forall in Ht. specialize (Ht _ Hmem). lia.
    - rewrite Forall_forall in Hw. specialize (Hw _ Hmem). lia. }
  assert (Hgoal : forall q : Pool,
            pool_inv env_value q -> workers q = workers p -> constructed q = constructed p ->
            numThreads q = numThreads p -> terminated q = terminated p ++ workers p ->
            forall p', p' = addNewWorker env_value
                   (set_workers q (splice (indexOf worker (workers q)) 1 (workers q))) ->
            (worker ∉ workers p') /\ constructed p' = S (constructed p)
            /\ constructed p ∈ workers p' /\ (constructed p ∉ terminated p')
            /\ length (workers p') = numThreads p).
  { intros q Hq Hqw Hqc Hqn Hqt p' ->.
    destruct (replace_worker_spec worker q Hq) as (Habs & Hnew & Hc' & Hlen' & _ & Ht' & _).
    { rewrite Hqw. exact Hin. }
    rewrite Hqc in Hnew, Hc'. rewrite Hqn in Hlen'. rewrite Hqt in Ht'.
    repeat split; try assumption. rewrite Ht'. exact Hfresh. }
  subst p2. unfold on_worker_exit, on_worker_error.
  destruct (kTaskInfo p1 !! worker) as [info|] eqn:Hinfo.
  - match goal with |- context [settle ?a ?b p1] => set (q := settle a b p1) end.
    destruct (settle_fields (ti_promise info)
                (Rejected (if ti_didTimeout info then timed_out info
                           else mkException Error ("Worker stopped with exit code " +:+ pretty code)))
                p1) as (Hqn & Hqw & Hqc & Hqt & _).
    fold q in Hqn, Hqw, Hqc, Hqt.
    apply (Hgoal q).
    + eapply pool_inv_frame; try eassumption. apply settle_wf. apply Hinv1.
    + rewrite Hqw, Hp1. reflexivity.
    + rewrite Hqc, Hp1. reflexivity.
    + rewrite Hqn, Hp1. reflexivity.
    + rewrite Hqt, Hp1. reflexivity.
    + reflexivity.
  - assert (Hlistener : error_listener p1 = true).
    { destruct Hhandled as [[info Hsome] | Hl].
      - rewrite Hp1 in Hinfo. cbn in Hinfo. congruence.
      - rewrite Hp1. exact Hl. }
    rewrite Hlistener.
    match goal with |- context [set_pool_errors p1 ?e] => set (q := set_pool_errors p1 e) end.
    apply (Hgoal q); try (subst q; rewrite Hp1; reflexivity).
    eapply pool_inv_frame; try exact Hinv1; try reflexivity.
    destruct Hinv1 as [Hwf1 _]. subst q. wf_fields Hwf1.
Qed.

(** *** Completion messages *)

(** What the message handler does with [{ result, logs }]: the promise is
    resolved when [result] is there, and is left pending when it is not. *)
Lemma finished_message_settles (p : Pool) (worker : WorkerId) (info : TaskInfo)
    (result : option (list byte)) (logs : list string) :
  kTaskInfo p !! worker = Some info ->
  promises p !! ti_promise info = None ->
  let p' := on_worker_message env_value worker (mkMessage result (Some logs) None None None) p in
  promises p' !! ti_promise info
  = match result with
    | Some bytes => Some (Resolved bytes (Some logs))
    | None => None
    end.
Proof.
  intros Hinfo Hpending. unfold on_worker_message. rewrite Hinfo. cbn -[emit_freed].
  match goal with |- context [emit_freed env_value ?q] =>
    pose proof (emit_freed_frame q) as (_ & _ & _ & _ & Hp & _);
    change (promises q) with (promises p) in Hp;
    generalize dependent (emit_freed env_value q) end.
  intros r Hp.
  destruct result as [bytes|].
  - unfold settle. rewrite Hp, Hpending. cbn. apply lookup_insert_eq.
  - rewrite Hp. exact Hpending.
Qed.

(** *** A call on a worker that sends nothing more *)

Lemma held_fields (w : WorkerId) (promise : PromiseId) (p p' : Pool) :
  promises p' = promises p -> kTaskInfo p' = kTaskInfo p ->
  freed_listeners p' = freed_listeners p -> next_promise p' = next_promise p ->
  only_held_by w promise p -> only_held_by w promise p'.
Proof. unfold only_held_by. intros -> -> -> ->. auto. Qed.

Lemma held_start (w : WorkerId) (promise promise' : PromiseId) (t : Task) (p : Pool) :
  promise' <> promise -> only_held_by w promise p ->
  only_held_by w promise (start env_value t promise' p).
Proof.
  intros Hne (Hp & Hk & Hl & Hn). unfold start.
  destruct (pop (freeWorkers p)) as [[worker rest]|].
  - split; [exact Hp|]. split; [|split; [exact Hl | exact Hn]].
    intros w' info. cbn. rewrite lookup_insert. case_decide.
    + intros [= <-]. cbn. intros Heq. contradiction.
    + apply Hk.
  - split; [exact Hp|]. split; [exact Hk|]. split; [|exact Hn].
    cbn. apply Forall_app. split; [exact Hl|]. constructor; [exact Hne | constructor].
Qed.

Lemma held_emit_freed (w : WorkerId) (promise : PromiseId) (p : Pool) :
  only_held_by w promise p -> only_held_by w promise (emit_freed env_value p).
Proof.
  intros Hheld. unfold emit_freed.
  assert (Hl : Forall (fun waiting : Task * PromiseId => waiting.2 <> promise)
                 (freed_listeners p)) by apply Hheld.
  assert (H0 : only_held_by w promise (set_freed_listeners p [])).
  { destruct Hheld as (Hp & Hk & _ & Hn).
    split; [exact Hp|]. split; [exact Hk|]. split; [constructor | exact Hn]. }
  revert Hl H0. generalize (set_freed_listeners p []).
  induction (freed_listeners p) as [|[t promise'] l IH]; intros q Hl H0; [exact H0|].
  apply Forall_cons in Hl as [Hne Hl]. cbn [fold_left].
  apply IH; [exact Hl|]. apply held_start; assumption.
Qed.

Lemma held_settle (w : WorkerId) (promise promise' : PromiseId) (s : Settlement) (p : Pool) :
  promise' <> promise -> only_held_by w promise p ->
  only_held_by w promise (settle promise' s p).
Proof.
  intros Hne Hheld. unfold settle. destruct (promises p !! promise'); [exact Hheld|].
  destruct Hheld as (Hp & Hk & Hl & Hn).
  split; [|split; [exact Hk | split; [exact Hl | exact Hn]]].
  cbn. rewrite lookup_insert_ne by exact Hne. exact Hp.
Qed.

Lemma held_addNewWorker (w : WorkerId) (promise : PromiseId) (p : Pool) :
  only_held_by w promise p -> only_held_by w promise (addNewWorker env_value p).
Proof.
  intros Hheld. unfold addNewWorker. apply held_emit_freed.
  eapply held_fields; [..|exact Hheld]; reflexivity.
Qed.

Lemma held_on_worker_error (w worker : WorkerId) (promise : PromiseId) (err : Exception)
    (p : Pool) :
  worker <> w -> only_held_by w promise p ->
  only_held_by w promise (on_worker_error env_value worker err p).
Proof.
  intros Hne Hheld. unfold on_worker_error.
  destruct (kTaskInfo p !! worker) as [info|] eqn:Hinfo.
  - assert (Hother : ti_promise info <> promise).
    { intros Heq. destruct Hheld as (_ & Hk & _). exact (Hne (Hk _ _ Hinfo Heq)). }
    apply held_addNewWorker.
    match goal with |- context [settle ?a ?b p] =>
      eapply held_fields; [..|exact (held_settle w promise a b p Hother Hheld)]; reflexivity
    end.
  - destruct (error_listener p).
    + apply held_addNewWorker. eapply held_fields; [..|exact Hheld]; reflexivity.
    + eapply held_fields; [..|exact Hheld]; reflexivity.
Qed.

Lemma held_on_worker_message (w worker : WorkerId) (promise : PromiseId) (m : Message)
    (p : Pool) :
  worker <> w -> only_held_by w promise p ->
  only_held_by w promise (on_worker_message env_value worker m p).
Proof.
  intros Hne Hheld. unfold on_worker_message.
  destruct (kTaskInfo p !! worker) as [info|] eqn:Hinfo;
    [|eapply held_fields; [..|exact Hheld]; reflexivity].
  assert (Hother : ti_promise info <> promise).
  { intros Heq. destruct Hheld as (_ & Hk & _). exact (Hne (Hk _ _ Hinfo Heq)). }
  match goal with
  | |- context [if truthy_string (msg_methodName m) then p else ?q] =>
      assert (Hq : only_held_by w promise
                     (if truthy_string (msg_methodName m) then p else q));
      [destruct (truthy_string (msg_methodName m)); [exact Hheld|]
      |generalize dependent (if truthy_string (msg_methodName m) then p else q)]
  end.
  { apply held_emit_freed. destruct Hheld as (Hp & Hk & Hl & Hn).
    split; [exact Hp|]. split; [|split; [exact Hl | exact Hn]].
    intros w' info'. cbn. rewrite lookup_delete. case_decide; [discriminate|]. apply Hk. }
  intros q Hq.
  destruct (msg_error m); [apply held_settle; assumption|].
  destruct (msg_result m); [apply held_settle; assumption|].
  destruct (msg_methodName m), (msg_compKey m); try exact Hq.
  destruct (String.eqb _ _); [|exact Hq].
  eapply held_fields; [..|exact Hq]; reflexivity.
Qed.

Lemma held_on_timeout (w : WorkerId) (promise : PromiseId) (timer : TimerId) (p : Pool) :
  only_held_by w promise p -> only_held_by w promise (on_timeout timer p).
Proof.
  intros Hheld. unfold on_timeout.
  destruct (timers p !! timer) as [[worker delay]|]; [|exact Hheld].
  cbn. destruct (kTaskInfo p !! worker) as [info|] eqn:Hinfo;
    [|eapply held_fields; [..|exact Hheld]; reflexivity].
  destruct Hheld as (Hp & Hk & Hl & Hn).
  split; [exact Hp|]. split; [|split; [exact Hl | exact Hn]].
  intros w' info'. cbn. rewrite lookup_insert. case_decide.
  - intros [= <-]. cbn. intros Heq. subst w'. exact (Hk _ _ Hinfo Heq).
  - apply Hk.
Qed.

Lemma held_step (w : WorkerId) (promise : PromiseId) (ev : Event) (p : Pool) :
  from_worker w ev = false -> only_held_by w promise p ->
  only_held_by w promise (step env_value ev p).
Proof.
  intros Hev Hheld.
  destruct ev as [t | worker m | worker err | worker code | timer | |]; cbn [step];
    cbn [from_worker] in Hev; try apply bool_decide_eq_false in Hev.
  - unfold runContract. cbn [snd].
    assert (Hfresh : next_promise p <> promise) by (destruct Hheld as (_ & _ & _ & Hn); lia).
    apply held_start; [exact Hfresh|].
    destruct Hheld as (Hp & Hk & Hl & Hn).
    split; [exact Hp|]. split; [exact Hk|]. split; [exact Hl|]. cbn. lia.
  - apply held_on_worker_message; assumption.
  - apply held_on_worker_error; assumption.
  - apply held_on_worker_error; assumption.
  - apply held_on_timeout. exact Hheld.
  - eapply held_fields; [..|exact Hheld]; reflexivity.
  - rewrite close_spec. eapply held_fields; [..|exact Hheld]; reflexivity.
Qed.

(** A promise that only the task of one worker can settle stays pending
    for as long as that worker sends no message, raises no error and does
    not exit, whatever else happens to the pool. *)
Lemma silent_worker_never_settles (w : WorkerId) (promise : PromiseId)
    (events : list Event) (p : Pool) :
  Forall (fun ev => from_worker w ev = false) events ->
  only_held_by w promise p ->
  promises (fold_left (fun p ev => step env_value ev p) events p) !! promise = None.
Proof.
  intros Hevents. revert p.
  induction Hevents as [|ev events Hev _ IH]; intros p Hheld; [apply Hheld|].
  cbn [fold_left]. apply IH. apply held_step; assumption.
Qed.

End PoolProperties.

(** ** The storage bridge *)

Section StorageBridge.
Context {platform : Platform} {client : StorageClient}.
Variable env_value : option string.

Lemma first_message_after_empty_polls (n : nat) (message : option (list byte))
    (later : list Poll) :
  first_message (replicate n None ++ Some message :: later) = Some (message, later).
Proof. induction n as [|n IH]; cbn; [reflexivity | exact IH]. Qed.

(** A call submitted while a worker is free: the worker is given the
    task, the pool keeps the promise of the call and the block height of
    the task for it, and arms a timer of [CONTRACT_TIMEOUT_MS] for it. *)
Lemma runContract_dispatches (t : Task) (p : Pool) (worker : WorkerId)
    (rest : list WorkerId) (polls : list Poll) :
  pop (freeWorkers p) = Some (worker, rest) ->
  let p' := (runContract env_value t p).2 in
  exists info,
    kTaskInfo p' !! worker = Some info
    /\ ti_promise info = (runContract env_value t p).1
    /\ ti_blockHeight info = blockHeight (ctx (initial_state t polls))
    /\ timers p' !! ti_timeoutHandle info = Some (worker, CONTRACT_TIMEOUT_MS env_value)
    /\ to_worker p' = to_worker p ++ [(worker, PostTask t)].
Proof.
  intros Hpop. unfold runContract, start. cbn. rewrite Hpop. cbn.
  eexists. split; [apply lookup_insert_eq|]. cbn.
  split; [reflexivity|]. split; [reflexivity|]. split; [apply lookup_insert_eq | reflexivity].
Qed.

(** C5. A storage read of a key inside the memory posts the composite key
    to the pool; the pool answers with the value the storage client has
    for that key at or before the block height of the call, or with
    [null] when the client has none. When the answer arrives (after any
    number of empty polls) [storage_read] returns 0 and leaves the
    registers as they were if there is no value, and returns 1 with the
    register holding exactly the value otherwise. *)
Theorem storage_read_bridge (p : Pool) (worker : WorkerId) (info : TaskInfo) (st : State)
    (key_len key_ptr register_id : Z) (empty_polls : nat) (later : list Poll) :
  let mem := memory (ctx st) in
  let storageKey := take (Z.to_nat key_len) (drop (Z.to_nat key_ptr) mem) in
  let key := String.list_byte_of_string (contractId (ctx st)) ++ [x3a] ++ storageKey in
  let request := mkMessage None None None (Some "storage_read") (Some key) in
  let found := match getLatestDataBlockHash key (blockHeight (ctx st)) with
               | Some blockHash => getData key blockHash
               | None => None
               end in
  Z.of_nat (length mem) <= MAX_SAFE_INTEGER ->
  0 <= key_ptr -> 0 <= key_len -> key_ptr + key_len <= Z.of_nat (length mem) ->
  kTaskInfo p !! worker = Some info ->
  ti_blockHeight info = blockHeight (ctx st) ->
  port st = replicate empty_polls None ++ Some found :: later ->
  to_worker (on_worker_message env_value worker request p)
  = to_worker p ++ [(worker, PostReply found)]
  /\ storage_read key_len key_ptr register_id st
     = match found with
       | None =>
           (Normal 0, mkState (ctx st) (registers st) (posted st ++ [request]) later)
       | Some data =>
           (Normal 1,
            mkState (ctx st) (<[register_id := data]> (registers st))
              (posted st ++ [request]) later)
       end.
Proof.
  intros mem storageKey key request found Hmem Hptr Hlen Hfit Hinfo Hheight Hport.
  split.
  - unfold on_worker_message. rewrite Hinfo. cbn.
    unfold storage_reply. rewrite Hheight. reflexivity.
  - unfold storage_read. unfold bind at 1.
    rewrite memory_bytes_in_bounds by assumption.
    fold mem. fold storageKey.
    unfold bind at 1. unfold get at 1.
    pose proof (compKey_bytes (ctx st) storageKey) as Hkey.
    unfold bind at 1. unfold lift at 1. rewrite Hkey. fold key.
    unfold bind at 1. unfold postMessage, modify. fold request.
    unfold bind at 1. unfold receive. cbn [port].
    rewrite Hport, first_message_after_empty_polls.
    destruct found as [data|]; reflexivity.
Qed.

End StorageBridge.

(** ** The properties at concrete calls *)

(** C2. A guest that logs [hello] and returns without calling
    [value_return]: the worker posts [{ result: undefined, logs }]; the
    message handler of the pool frees the worker and clears its timer and
    task, and since [result] is not there it calls neither [resolve] nor
    [reject]. The promise of the call stays pending. *)
Theorem absent_result_never_settles :
  let messages := Worker.on_message (platform := ascii_platform) hello_task [] in
  let p := fold_left
             (fun p m => on_worker_message (client := one_value_client) None 0%nat m p)
             messages busy_pool in
  messages = [mkMessage None (Some ["hello"]) None None None]
  /\ kTaskInfo busy_pool !! 0%nat
     = Some (mkTaskInfo 0%nat 10 "alice.test" "main" 0%nat false)
  /\ promises busy_pool !! 0%nat = None
  /\ promises p !! 0%nat = None
  /\ kTaskInfo p !! 0%nat = None
  /\ timers p !! 0%nat = None
  /\ freeWorkers p = [0%nat].
Proof. vm_compute. repeat split. Qed.

(** The rest of C2 holds: a guest that calls [value_return] twice has its
    call resolved with the bytes of the second call and with its logs. *)
Example last_value_return_is_resolved :
  let guest := WriteMem 0 (String.list_byte_of_string "hello")
                 (CallImport "value_return" [2; 0] (fun _ =>
                  CallImport "value_return" [3; 2] (fun _ => Return_))) in
  let task := mkTask (mkWasmModule [("main", guest)] (replicate 8 x00))
                10 "alice.test" "main" [] in
  let messages := Worker.on_message (platform := ascii_platform) task [] in
  let p := fold_left
             (fun p m => on_worker_message (client := one_value_client) None 0%nat m p)
             messages (runContract None task idle_pool).2 in
  messages = [mkMessage (Some (String.list_byte_of_string "llo")) (Some []) None None None]
  /\ promises p !! 0%nat = Some (Resolved (String.list_byte_of_string "llo") (Some [])).
Proof. vm_compute. repeat split. Qed.

(** C1 from the caller's side: a call whose guest asks for the current
    account id is rejected with the TypeError of [Buffer.from]. *)
Example current_account_id_call_is_rejected :
  let guest := CallImport "current_account_id" [0] (fun _ => Return_) in
  let task := mkTask (mkWasmModule [("main", guest)] (replicate 8 x00))
                10 "alice.test" "main" [] in
  let messages := Worker.on_message (platform := ascii_platform) task [] in
  let p := fold_left
             (fun p m => on_worker_message (client := one_value_client) None 0%nat m p)
             messages (runContract None task idle_pool).2 in
  messages = [mkMessage None None (Some invalid_buffer_source) None None]
  /\ promises p !! 0%nat = Some (Rejected invalid_buffer_source).
Proof. vm_compute. repeat split. Qed.

(** C4. A pool with one worker, busy with a call, is closed: [close]
    terminates the worker. When the exit of the worker is handled, the
    error handler treats it as a crash: the caller is rejected, the worker
    is removed, and a second worker is constructed and put in the pool as
    free; nothing terminates it, so it outlives the shutdown. (The timer
    callback marks the termination it causes with [didTimeout]; [close]
    leaves no mark.) *)
Theorem close_is_followed_by_a_replacement :
  let p1 := close busy_pool in
  let p2 := on_worker_exit None 0%nat 1 p1 in
  workers p1 = [0%nat] /\ terminated p1 = [0%nat] /\ constructed p1 = 1%nat
  /\ constructed p2 = 2%nat /\ workers p2 = [1%nat] /\ freeWorkers p2 = [1%nat]
  /\ terminated p2 = [0%nat].
Proof. vm_compute. repeat split. Qed.

(** C9. A pool of one worker whose owner listens to 'error'. The worker
    exits while it is idle: the handler of the exit puts worker 1 in its
    place in [workers] and leaves worker 0 in [freeWorkers]. Of the two
    calls made then, the second is handed to worker 0, which has exited.
    When the timer of that call fires, the task is marked as timed out and
    [terminate] is called on the dead worker; no worker is constructed.
    The rejection is left to the handler of 'exit', a once-listener that
    has run already, and a worker that has exited sends nothing more:
    whatever else happens to the pool, the promise of the call stays
    pending. *)
Theorem call_on_exited_worker_is_never_rejected :
  let p := stale_pool in
  let fired := on_timeout 1%nat p in
  reachable (client := one_value_client) None p
  /\ numThreads p = 1%nat /\ workers p = [1%nat] /\ freeWorkers p = []
  /\ kTaskInfo p !! 0%nat = Some (mkTaskInfo 1%nat 10 "alice.test" "main" 1%nat false)
  /\ timers p !! 1%nat = Some (0%nat, Some 1000)
  /\ promises p !! 1%nat = None
  /\ kTaskInfo fired !! 0%nat = Some (mkTaskInfo 1%nat 10 "alice.test" "main" 1%nat true)
  /\ terminated fired = [0%nat]
  /\ constructed fired = constructed p
  /\ workers fired = [1%nat]
  /\ promises fired !! 1%nat = None
  /\ forall events,
       Forall (fun ev => from_worker 0%nat ev = false) events ->
       promises (fold_left (fun p ev => step (client := one_value_client) None ev p)
                   events p) !! 1%nat
       = None.
Proof.
  cbv zeta.
  split.
  { unfold stale_pool. cbn [fold_left].
    repeat (apply reachable_step; [|first [exact I | vm_compute; lia]]).
    apply reachable_new. }
  do 11 (split; [vm_compute; reflexivity|]).
  intros events Hevents.
  apply (silent_worker_never_settles None 0%nat 1%nat events stale_pool Hevents).
  assert (Hk : kTaskInfo stale_pool
               = <[0%nat := mkTaskInfo 1%nat 10 "alice.test" "main" 1%nat false]>
                   (<[1%nat := mkTaskInfo 0%nat 10 "alice.test" "main" 0%nat false]> ∅))
    by (vm_compute; reflexivity).
  split; [vm_compute; reflexivity|].
  split; [|split; [vm_compute; constructor | vm_compute; lia]].
  intros w' info. rewrite Hk, lookup_insert. case_decide; [congruence|].
  rewrite lookup_insert. case_decide; [intros [= <-]; discriminate|].
  rewrite lookup_empty. discriminate.
Qed.

(** C8, the claim as stated fails: a guest that calls [storage_write]
    inside a [try] block catches the error and goes on; the call does not
    fail, the worker reports the result and the pool resolves the
    caller's promise with it. *)
Lemma caught_prohibited_call_does_not_fail :
  let messages := Worker.on_message (platform := ascii_platform) catching_task [] in
  let p := fold_left
             (fun p m => on_worker_message (client := one_value_client) None 0%nat m p)
             messages (runContract None catching_task idle_pool).2 in
  In "storage_write" prohibited_for_view
  /\ (call_import (platform := ascii_platform) "storage_write" [1; 0; 1; 0; 0]
        (initial_state catching_task [])).1
     = Throw (mkException Error "method not available for view calls: storage_write")
  /\ messages
     = [mkMessage (Some (String.list_byte_of_string "hello")) (Some []) None None None]
  /\ promises p !! 0%nat = Some (Resolved (String.list_byte_of_string "hello") (Some [])).
Proof. vm_compute. repeat split. tauto. Qed.

(** C6, the claim as stated fails: [read_register] on a register that was
    never written throws a RangeError when the pointer lies past the end
    of the memory (here 9, with 8 bytes of memory). *)
Lemma read_register_unset_past_the_end_throws :
  registers hello_state !! 0 = None
  /\ length (memory (ctx hello_state)) = 8%nat
  /\ read_register (platform := ascii_platform) 0 9 hello_state
     = (Throw (mkException RangeError "offset is out of bounds"), hello_state).
Proof. vm_compute. repeat split. Qed.

(** C10, the claim as stated fails: a range that starts at the 64-bit
    offset [2^64 - 4], far past the end of an 8-byte memory, reaches the
    host as the pointer [-4]; the result is not empty, it is the byte four
    from the end of the memory. *)
Lemma value_return_counts_from_the_end :
  Z.of_nat (length (memory (ctx hello_state))) <= 2 ^ 64 - 4
  /\ BigInt_of_i64 (2 ^ 64 - 4) = -4
  /\ value_return (platform := ascii_platform) 1 (BigInt_of_i64 (2 ^ 64 - 4)) hello_state
     = (Normal tt, with_ctx (with_result (Some [x6f]) (ctx hello_state)) hello_state).
Proof. split; [cbn; lia|]. vm_compute. split; reflexivity. Qed.

(** C10 at a concrete call: 5 bytes from offset 6 of an 8-byte memory. *)
Lemma value_return_clamps_witness :
  Z.of_nat (length (memory (ctx hello_state))) <= MAX_SAFE_INTEGER
  /\ 0 <= 6 /\ 0 <= 5
  /\ Z.of_nat (length (memory (ctx hello_state))) < 6 + 5
  /\ value_return (platform := ascii_platform) 5 6 hello_state
     = (Normal tt, with_ctx (with_result (Some [x00; x00]) (ctx hello_state)) hello_state).
Proof.
  assert (H1 : Z.of_nat (length (memory (ctx hello_state))) <= MAX_SAFE_INTEGER)
    by (cbn; unfold MAX_SAFE_INTEGER; lia).
  assert (H2 : 0 <= 6) by lia.
  assert (H3 : 0 <= 5) by lia.
  assert (H4 : Z.of_nat (length (memory (ctx hello_state))) < 6 + 5) by (cbn; lia).
  refine (conj H1 (conj H2 (conj H3 (conj H4 _)))).
  rewrite (proj1 (value_return_clamps (platform := ascii_platform) hello_state 5 6 H1)).
  reflexivity.
Defined.

(** C6 at a concrete call: register 0 holds [ok] and is copied to offset 3. *)
Lemma register_len_and_read_register_witness :
  Z.of_nat (length (memory (ctx written_state))) <= MAX_SAFE_INTEGER
  /\ 0 <= 3
  /\ 3 + Z.of_nat (length (default [] (registers written_state !! 0)))
     <= Z.of_nat (length (memory (ctx written_state)))
  /\ register_len 0 written_state = (Normal 2, written_state)
  /\ memory (ctx (read_register (platform := ascii_platform) 0 3 written_state).2)
     = String.list_byte_of_string "helok" ++ [x00; x00; x00].
Proof.
  assert (H1 : Z.of_nat (length (memory (ctx written_state))) <= MAX_SAFE_INTEGER)
    by (cbn; unfold MAX_SAFE_INTEGER; lia).
  assert (H2 : 0 <= 3) by lia.
  assert (H3 : 3 + Z.of_nat (length (default [] (registers written_state !! 0)))
               <= Z.of_nat (length (memory (ctx written_state)))) by (vm_compute; discriminate).
  destruct (register_len_and_read_register (platform := ascii_platform) written_state 0 3)
    as (Hlen & Hcopy).
  destruct (Hcopy H1 H2 H3) as (Hread & _).
  refine (conj H1 (conj H2 (conj H3 (conj Hlen _)))).
  rewrite Hread. reflexivity.
Defined.

(** The same at a concrete call: the one worker of the pool is running a
    call when timer 0 fires. *)
Lemma timeout_rejects_and_replaces_witness :
  reachable (client := one_value_client) None busy_pool
  /\ timers busy_pool !! 0%nat = Some (0%nat, Some 1000)
  /\ kTaskInfo busy_pool !! 0%nat
     = Some (mkTaskInfo 0%nat 10 "alice.test" "main" 0%nat false)
  /\ 0%nat ∈ workers busy_pool
  /\ promises busy_pool !! 0%nat = None
  /\ promises (on_worker_exit None 0%nat 1 (on_timeout 0%nat busy_pool)) !! 0%nat
     = Some (Rejected (mkException Error "alice.test.main execution timed out"))
  /\ length (workers (on_worker_exit None 0%nat 1 (on_timeout 0%nat busy_pool))) = 1%nat.
Proof.
  assert (H1 : reachable (client := one_value_client) None busy_pool).
  { exact (reachable_step None idle_pool (Submit hello_task) (reachable_new None 1) I). }
  assert (H2 : timers busy_pool !! 0%nat = Some (0%nat, Some 1000)) by reflexivity.
  assert (H3 : kTaskInfo busy_pool !! 0%nat
               = Some (mkTaskInfo 0%nat 10 "alice.test" "main" 0%nat false)) by reflexivity.
  assert (H4 : 0%nat ∈ workers busy_pool) by (vm_compute; left).
  assert (H5 : promises busy_pool !! 0%nat = None) by reflexivity.
  destruct (timeout_rejects_and_replaces (client := one_value_client) None busy_pool 0%nat 0%nat
              (Some 1000) _ 1 H1 H2 H3 H4 H5)
    as (_ & _ & _ & Hrejected & _ & _ & _ & Hlen & Hn).
  refine (conj H1 (conj H2 (conj H3 (conj H4 (conj H5 (conj Hrejected _)))))).
  rewrite Hlen, Hn. reflexivity.
Defined.

(** The same at a concrete call: the pool is closed while its one worker
    runs a call. *)
Lemma close_terminates_and_exit_replaces_witness :
  reachable (client := one_value_client) None busy_pool
  /\ 0%nat ∈ workers busy_pool
  /\ (is_Some (kTaskInfo busy_pool !! 0%nat) \/ error_listener busy_pool = true)
  /\ constructed (on_worker_exit None 0%nat 1 (close busy_pool)) = 2%nat
  /\ 1%nat ∈ workers (on_worker_exit None 0%nat 1 (close busy_pool))
  /\ (1%nat ∉ terminated (on_worker_exit None 0%nat 1 (close busy_pool))).
Proof.
  assert (H1 : reachable (client := one_value_client) None busy_pool).
  { exact (reachable_step None idle_pool (Submit hello_task) (reachable_new None 1) I). }
  assert (H2 : 0%nat ∈ workers busy_pool) by (vm_compute; left).
  assert (H3 : is_Some (kTaskInfo busy_pool !! 0%nat) \/ error_listener busy_pool = true).
  { left. eexists. reflexivity. }
  destruct (close_terminates_and_exit_replaces (client := one_value_client) None busy_pool 0%nat 1
              H1 H2 H3)
    as (_ & _ & _ & _ & Hc & Hnew & Hlive & _).
  exact (conj H1 (conj H2 (conj H3 (conj Hc (conj Hnew Hlive))))).
Defined.

(** C5 at a concrete call: [alice.test] reads the key [k] at block 10;
    the client holds [v] for it since block 5. *)
Lemma storage_read_bridge_witness :
  Z.of_nat (length (memory (ctx key_state))) <= MAX_SAFE_INTEGER
  /\ 0 <= 0 /\ 0 <= 1 /\ 0 + 1 <= Z.of_nat (length (memory (ctx key_state)))
  /\ kTaskInfo busy_pool !! 0%nat
     = Some (mkTaskInfo 0%nat 10 "alice.test" "main" 0%nat false)
  /\ ti_blockHeight (mkTaskInfo 0%nat 10 "alice.test" "main" 0%nat false)
     = blockHeight (ctx key_state)
  /\ port key_state
     = replicate 2 None ++ [Some (Some (String.list_byte_of_string "v"))]
  /\ (storage_read (platform := ascii_platform) 1 0 7 key_state).1 = Normal 1
  /\ registers (storage_read (platform := ascii_platform) 1 0 7 key_state).2 !! 7
     = Some (String.list_byte_of_string "v").
Proof.
  assert (H1 : Z.of_nat (length (memory (ctx key_state))) <= MAX_SAFE_INTEGER)
    by (cbn; unfold MAX_SAFE_INTEGER; lia).
  assert (H2 : 0 <= 0) by lia.
  assert (H3 : 0 <= 1) by lia.
  assert (H4 : 0 + 1 <= Z.of_nat (length (memory (ctx key_state)))) by (cbn; lia).
  assert (H5 : kTaskInfo busy_pool !! 0%nat
               = Some (mkTaskInfo 0%nat 10 "alice.test" "main" 0%nat false)) by reflexivity.
  assert (H6 : ti_blockHeight (mkTaskInfo 0%nat 10 "alice.test" "main" 0%nat false)
               = blockHeight (ctx key_state)) by reflexivity.
  assert (H7 : port key_state
               = replicate 2 None ++ [Some (Some (String.list_byte_of_string "v"))])
    by reflexivity.
  destruct (storage_read_bridge (platform := ascii_platform) (client := one_value_client) None
              busy_pool 0%nat _ key_state 1 0 7 2%nat [] H1 H2 H3 H4 H5 H6 H7)
    as [_ Hread].
  refine (conj H1 (conj H2 (conj H3 (conj H4 (conj H5 (conj H6 (conj H7 _))))))).
  rewrite Hread. split; reflexivity.
Defined.

(** * Further properties of the host runtime *)

Section HostRuntime.
Context {platform : Platform}.

Ltac host_unfold :=
  unfold returns_nothing, returns_u64, push_log, postMessage, memory_bytes,
    throw_error, bind, get, ret, lift, modify, throw, spin.

(** ** Ranges outside the memory *)

Lemma Uint8Array_view_outside (mem : list byte) (ptr len : Z) :
  ~ (0 <= ptr /\ 0 <= len /\ ptr + len <= Z.of_nat (length mem)) ->
  exists message, Uint8Array_view mem (Number ptr) (Number len)
                  = Throw (mkException RangeError message).
Proof.
  intros Hout. unfold Uint8Array_view, out_of_bounds.
  destruct (Z.ltb_spec (Number ptr) 0); [cbn; eauto|].
  destruct (Z.ltb_spec (2 ^ 53 - 1) (Number ptr)); [cbn; eauto|]. cbn [orb].
  destruct (Z.ltb_spec (Number len) 0); [cbn; eauto|].
  destruct (Z.ltb_spec (2 ^ 53 - 1) (Number len)); [cbn; eauto|]. cbn [orb].
  assert (Hp : 0 <= ptr).
  { destruct (Z_lt_le_dec ptr 0); [|assumption]. pose proof (Number_neg ptr). lia. }
  assert (Hl : 0 <= len).
  { destruct (Z_lt_le_dec len 0); [|assumption]. pose proof (Number_neg len). lia. }
  rewrite (Number_small ptr), (Number_small len) by lia.
  destruct (Z.ltb_spec (Z.of_nat (length mem)) (ptr + len)); [eauto | lia].
Qed.

(** A text or key range that does not lie inside the memory (negative
    pointer or length, or an end past the memory) fails the call with a
    RangeError before anything is logged, posted or written. *)
Theorem range_outside_memory_throws (st : State) (len ptr : Z) :
  ~ (0 <= ptr /\ 0 <= len /\ ptr + len <= Z.of_nat (length (memory (ctx st)))) ->
  exists message,
    let e := mkException RangeError message in
    log_utf8 len ptr st = (Throw e, st)
    /\ log_utf16 len ptr st = (Throw e, st)
    /\ panic_utf8 len ptr st = (Throw e, st)
    /\ forall register_id, storage_read len ptr register_id st = (Throw e, st).
Proof.
  intros Hout.
  destruct (Uint8Array_view_outside (memory (ctx st)) ptr len Hout) as [message Hview].
  exists message. cbv zeta.
  assert (Hbytes : memory_bytes len ptr st = (Throw (mkException RangeError message), st)).
  { host_unfold. rewrite Hview. reflexivity. }
  repeat split; intros;
    unfold log_utf8, log_utf16, panic_utf8, storage_read;
    unfold bind at 1; rewrite Hbytes; reflexivity.
Qed.

(** ** Panics *)

(** [panic_utf8] on a range inside the memory fails the call with the
    message [panic: ] followed by the decoded text, and changes nothing. *)
Theorem panic_utf8_message (st : State) (len ptr : Z) :
  Z.of_nat (length (memory (ctx st))) <= MAX_SAFE_INTEGER ->
  0 <= ptr -> 0 <= len -> ptr + len <= Z.of_nat (length (memory (ctx st))) ->
  panic_utf8 len ptr st
  = (Throw (mkException Error
              ("panic: " +:+ decode Utf8 (take (Z.to_nat len)
                                             (drop (Z.to_nat ptr) (memory (ctx st)))))),
     st).
Proof.
  intros. unfold panic_utf8.
  unfold bind at 1. rewrite memory_bytes_in_bounds by assumption.
  unfold bind, lift. rewrite (Buffer_toString_known _ "utf8" Utf8) by reflexivity.
  reflexivity.
Qed.

(** [panic], [panic_utf8] and [abort] never return to the guest: whatever
    their arguments and the state, they throw or do not end. *)
Theorem panics_never_return (st st' : State) (a b c d : Z) :
  panic st <> (Normal tt, st')
  /\ panic_utf8 a b st <> (Normal tt, st')
  /\ abort a b c d st <> (Normal tt, st').
Proof.
  split; [discriminate|]. split.
  - unfold panic_utf8. unfold bind at 1.
    destruct (memory_bytes a b st) as [[bytes | e |] s]; try discriminate.
    unfold bind. destruct (lift (Buffer_toString bytes "utf8") s) as [[text | e |] s'];
      discriminate.
  - unfold abort. unfold bind at 1.
    destruct (readUTF16CStr a st) as [[msg | e |] s]; try discriminate.
    unfold bind at 1.
    destruct (readUTF16CStr b s) as [[filename | e |] s']; discriminate.
Qed.

(** ** Unimplemented functions *)

(** Every function the import table binds to [notImplemented] throws
    [method not implemented: <name>] whatever its arguments, and leaves
    the state as it was. The error ends the run of a guest that does not
    catch it; a guest that calls the function inside a [try] block goes on
    in its handler, in the same state. *)
Theorem not_implemented_fails :
  Forall (fun name =>
            forall (args : list Z) (st : State),
              call_import name args st
              = (Throw (mkException Error ("method not implemented: " +:+ name)), st)
              /\ (forall k : option Z -> Guest,
                    run (CallImport name args k) st
                    = (Throw (mkException Error ("method not implemented: " +:+ name)), st))
              /\ (forall (k : option Z -> Guest) (handler : Guest),
                    run (TryImport name args k handler) st = run handler st))
         not_implemented.
Proof.
  unfold not_implemented.
  repeat (apply Forall_cons; split;
          [intros args st; split; [|split; [intros k | intros k handler]]; reflexivity|]).
  constructor.
Qed.

(** ** [abort] and its strings *)

Lemma units_until_zero_terminated (units rest : list byte) :
  no_zero_unit units = true ->
  units_until_zero (units ++ x00 :: x00 :: rest) = Some units.
Proof.
  remember (length units) as n eqn:Hn.
  revert units Hn. induction n as [n IH] using lt_wf_ind. intros units Hn Hunits.
  destruct units as [|lo [|hi units]]; [reflexivity | discriminate |].
  cbn in Hunits. apply andb_true_iff in Hunits as [Hnz Hrest].
  cbn [app units_until_zero].
  apply negb_true_iff in Hnz. rewrite Hnz.
  rewrite (IH (length units)); [reflexivity | subst n; cbn; lia | reflexivity | exact Hrest].
Qed.

Lemma readUTF16CStr_terminated (st : State) (ptr : Z) (units rest : list byte) :
  Z.even (Z.of_nat (length (memory (ctx st)))) = true ->
  0 <= ptr <= MAX_SAFE_INTEGER -> Z.even ptr = true ->
  drop (Z.to_nat ptr) (memory (ctx st)) = units ++ x00 :: x00 :: rest ->
  no_zero_unit units = true ->
  readUTF16CStr ptr st = (Normal (decode Utf16le units), st).
Proof.
  unfold MAX_SAFE_INTEGER. intros Hmem Hptr Heven Hdrop Hunits.
  unfold readUTF16CStr. host_unfold.
  rewrite <- Z.negb_even, Hmem. cbn [negb].
  rewrite Number_exact by lia.
  rewrite <- Z.negb_even, Heven. cbn [negb].
  rewrite Hdrop, units_until_zero_terminated by exact Hunits.
  replace (Z.to_nat (- ptr)) with 0%nat by lia. cbn [replicate app Buffer_from].
  rewrite (Buffer_toString_known _ "ucs2" Utf16le) by reflexivity. reflexivity.
Qed.

(** [abort] with a message and a file name that are zero-terminated
    UTF-16 strings at even offsets fails the call with
    [abort: <message> <file>:<line>:<col>], each string read up to its
    first zero unit, and changes nothing. *)
Theorem abort_message (st : State) (msg_ptr filename_ptr line col : Z)
    (msg filename rest1 rest2 : list byte) :
  Z.even (Z.of_nat (length (memory (ctx st)))) = true ->
  0 <= msg_ptr <= MAX_SAFE_INTEGER -> Z.even msg_ptr = true ->
  0 <= filename_ptr <= MAX_SAFE_INTEGER -> Z.even filename_ptr = true ->
  drop (Z.to_nat msg_ptr) (memory (ctx st)) = msg ++ x00 :: x00 :: rest1 ->
  drop (Z.to_nat filename_ptr) (memory (ctx st)) = filename ++ x00 :: x00 :: rest2 ->
  no_zero_unit msg = true -> no_zero_unit filename = true ->
  abort msg_ptr filename_ptr line col st
  = (Throw (mkException Error
              ("abort: " +:+ decode Utf16le msg +:+ " " +:+ decode Utf16le filename
               +:+ ":" +:+ pretty line +:+ ":" +:+ pretty col)),
     st).
Proof.
  intros Hmem Hp1 He1 Hp2 He2 Hd1 Hd2 Hu1 Hu2. unfold abort.
  unfold bind at 1. rewrite (readUTF16CStr_terminated st msg_ptr msg rest1) by assumption.
  unfold bind at 1. rewrite (readUTF16CStr_terminated st filename_ptr filename rest2)
    by assumption.
  reflexivity.
Qed.

(** ** Registers as a transfer channel *)

Lemma read_register_written (st : State) (register_id ptr : Z) (bytes : list byte) :
  registers st !! register_id = Some bytes ->
  Z.of_nat (length (memory (ctx st))) <= MAX_SAFE_INTEGER ->
  0 <= ptr -> ptr + Z.of_nat (length bytes) <= Z.of_nat (length (memory (ctx st))) ->
  read_register register_id ptr st
  = (Normal tt,
     with_ctx (with_memory
                 (take (Z.to_nat ptr) (memory (ctx st)) ++ bytes
                  ++ drop (Z.to_nat ptr + length bytes) (memory (ctx st)))
                 (ctx st)) st).
Proof.
  unfold MAX_SAFE_INTEGER. intros Hreg Hmem Hptr Hfit.
  unfold read_register. host_unfold. rewrite Hreg.
  rewrite Number_exact by lia. unfold Uint8Array_set.
  destruct (Z.ltb_spec ptr 0); [lia|].
  destruct (Z.ltb_spec (Z.of_nat (length (memory (ctx st))))
              (Z.of_nat (length bytes) + ptr)); [lia|].
  reflexivity.
Qed.

(** The method arguments reach the guest through a register. After
    [input(id)], in every state and whatever the size of the memory,
    [register_len(id)] is the length of the arguments and every other
    register is as before. When the arguments fit in the memory at [ptr],
    [read_register(id, ptr)] returns, puts exactly the arguments there,
    and changes no other byte and no register. *)
Theorem input_round_trip (st : State) (register_id ptr : Z) :
  let args := methodArgs (ctx st) in
  let mem := memory (ctx st) in
  let st1 := (input register_id st).2 in
  let st2 := (read_register register_id ptr st1).2 in
  (input register_id st).1 = Normal tt
  /\ register_len register_id st1 = (Normal (Z.of_nat (length args)), st1)
  /\ (forall other, other <> register_id -> registers st1 !! other = registers st !! other)
  /\ (Z.of_nat (length mem) <= MAX_SAFE_INTEGER ->
      0 <= ptr -> ptr + Z.of_nat (length args) <= Z.of_nat (length mem) ->
      (read_register register_id ptr st1).1 = Normal tt
      /\ take (length args) (drop (Z.to_nat ptr) (memory (ctx st2))) = args
      /\ take (Z.to_nat ptr) (memory (ctx st2)) = take (Z.to_nat ptr) mem
      /\ drop (Z.to_nat ptr + length args) (memory (ctx st2))
         = drop (Z.to_nat ptr + length args) mem
      /\ registers st2 = registers st1).
Proof.
  intros args mem st1 st2.
  assert (Hst1 : st1 = with_registers (<[register_id := args]> (registers st)) st)
    by reflexivity.
  assert (Hreg : registers st1 !! register_id = Some args).
  { rewrite Hst1. cbn. apply lookup_insert_eq. }
  split; [reflexivity|].
  split.
  { unfold register_len. host_unfold. rewrite Hreg. reflexivity. }
  split.
  { intros other Hother. cbn. apply lookup_insert_ne. congruence. }
  intros Hmem Hptr Hfit.
  assert (Hread := read_register_written st1 register_id ptr args Hreg Hmem Hptr Hfit).
  change (memory (ctx st1)) with mem in Hread.
  assert (Htake : length (take (Z.to_nat ptr) mem) = Z.to_nat ptr).
  { rewrite length_take. lia. }
  subst st2. rewrite Hread. cbn [fst snd ctx memory with_ctx with_memory].
  split; [reflexivity|]. split.
  { rewrite drop_app_length' by (symmetry; exact Htake). apply take_app_length. }
  split.
  { rewrite take_app_length' by (symmetry; exact Htake). reflexivity. }
  split.
  { rewrite app_assoc. apply drop_app_length'. rewrite length_app, Htake. reflexivity. }
  reflexivity.
Qed.

(** ** [value_return] inside the memory *)

(** For a range inside the memory [value_return] stores exactly the [len]
    bytes at [ptr] as the result, and touches neither memory, registers
    nor logs. *)
Theorem value_return_in_bounds (st : State) (value_len value_ptr : Z) :
  let mem := memory (ctx st) in
  let bytes := take (Z.to_nat value_len) (drop (Z.to_nat value_ptr) mem) in
  let st' := (value_return value_len value_ptr st).2 in
  Z.of_nat (length mem) <= MAX_SAFE_INTEGER ->
  0 <= value_ptr -> 0 <= value_len -> value_ptr + value_len <= Z.of_nat (length mem) ->
  (value_return value_len value_ptr st).1 = Normal tt
  /\ result (ctx st') = Some bytes
  /\ Z.of_nat (length bytes) = value_len
  /\ memory (ctx st') = mem /\ logs (ctx st') = logs (ctx st)
  /\ registers st' = registers st.
Proof.
  intros mem bytes st' Hmem Hptr Hlen Hfit. subst st'.
  rewrite value_return_range by assumption. cbn.
  repeat split. subst bytes. rewrite length_take, length_drop. fold mem. lia.
Qed.

(** ** A storage read that is never answered *)

Lemma first_message_none (polls : list Poll) :
  Forall (fun poll => poll = None) polls -> first_message polls = None.
Proof.
  induction 1 as [|poll polls Hpoll _ IH]; [reflexivity|]. subst poll. exact IH.
Qed.

(** When no reply ever arrives on the port, [storage_read] has posted its
    request and then polls for ever: it neither returns nor throws, and
    the registers are as they were. *)
Theorem storage_read_unanswered_spins (st : State) (key_len key_ptr register_id : Z) :
  let key := String.list_byte_of_string (contractId (ctx st)) ++ [x3a]
             ++ take (Z.to_nat key_len) (drop (Z.to_nat key_ptr) (memory (ctx st))) in
  Z.of_nat (length (memory (ctx st))) <= MAX_SAFE_INTEGER ->
  0 <= key_ptr -> 0 <= key_len ->
  key_ptr + key_len <= Z.of_nat (length (memory (ctx st))) ->
  Forall (fun poll => poll = None) (port st) ->
  storage_read key_len key_ptr register_id st
  = (Diverge,
     mkState (ctx st) (registers st)
       (posted st ++ [mkMessage None None None (Some "storage_read") (Some key)]) []).
Proof.
  intros key Hmem Hptr Hlen Hfit Hport.
  unfold storage_read. unfold bind at 1.
  rewrite memory_bytes_in_bounds by assumption.
  unfold bind at 1. unfold get at 1.
  unfold bind at 1. unfold lift at 1. rewrite compKey_bytes. fold key.
  unfold bind at 1. unfold postMessage, modify.
  unfold bind at 1. unfold receive. cbn [port].
  rewrite (first_message_none _ Hport). reflexivity.
Qed.

(** ** What a whole run keeps *)

Lemma host_keeps_refl (st : State) : host_keeps st st.
Proof.
  repeat split; try reflexivity.
  - exists []. symmetry. apply app_nil_r.
  - exists []. split; [symmetry; apply app_nil_r | constructor].
Qed.

Lemma host_keeps_trans (st1 st2 st3 : State) :
  host_keeps st1 st2 -> host_keeps st2 st3 -> host_keeps st1 st3.
Proof.
  intros (Hb & Hc & Ha & Hm & [l1 Hl1] & [r1 [Hr1 Hf1]])
         (Hb' & Hc' & Ha' & Hm' & [l2 Hl2] & [r2 [Hr2 Hf2]]).
  repeat split; try congruence.
  - exists (l1 ++ l2). rewrite Hl2, Hl1, app_assoc. reflexivity.
  - exists (r1 ++ r2). split; [rewrite Hr2, Hr1, app_assoc; reflexivity|].
    apply Forall_app. split; assumption.
Qed.

Lemma Uint8Array_set_length (mem src mem' : list byte) (offset : Z) :
  Uint8Array_set mem src offset = Normal mem' -> length mem' = length mem.
Proof.
  unfold Uint8Array_set.
  destruct (Z.ltb_spec offset 0); [discriminate|].
  destruct (Z.ltb_spec (Z.of_nat (length mem)) (Z.of_nat (length src) + offset));
    [discriminate|].
  cbn. intros [= <-]. rewrite !length_app, length_take, length_drop. lia.
Qed.

Lemma memory_bytes_state (st : State) (len ptr : Z) : (memory_bytes len ptr st).2 = st.
Proof. destruct (memory_bytes_cases st len ptr) as [[b ->] | [e ->]]; reflexivity. Qed.

Lemma readUTF16CStr_state (st : State) (ptr : Z) : (readUTF16CStr ptr st).2 = st.
Proof.
  unfold readUTF16CStr. host_unfold.
  repeat match goal with
         | |- context [if ?b then _ else _] => destruct b
         | |- context [match units_until_zero ?l with _ => _ end] =>
             destruct (units_until_zero l)
         | |- context [match Buffer_toString ?b ?e with _ => _ end] =>
             destruct (Buffer_toString b e)
         end; reflexivity.
Qed.

Lemma keeps_read_register (st : State) (register_id ptr : Z) :
  host_keeps st (read_register register_id ptr st).2.
Proof.
  unfold read_register. host_unfold.
  change (Buffer_from (JsNumbers [])) with (Normal (@nil byte)).
  assert (Hset : forall src,
            host_keeps st
              (match Uint8Array_set (memory (ctx st)) src (Number ptr) with
               | Normal a => (Normal (), with_ctx (with_memory a (ctx st)) st)
               | Throw e => (Throw e, st)
               | Diverge => (Diverge, st)
               end).2).
  { intros src.
    destruct (Uint8Array_set (memory (ctx st)) src (Number ptr)) as [mem' | e |] eqn:E;
      try apply host_keeps_refl.
    apply Uint8Array_set_length in E.
    repeat split; try reflexivity; try exact E.
    - exists []. symmetry. apply app_nil_r.
    - exists []. split; [symmetry; apply app_nil_r | constructor]. }
  destruct (registers st !! register_id); apply Hset.
Qed.

Lemma keeps_log (st : State) (len ptr : Z) (encoding : string) :
  host_keeps st
    ((let* buf := memory_bytes len ptr in
      let* message := lift (Buffer_toString buf encoding) in
      push_log message) st).2.
Proof.
  unfold bind at 1.
  destruct (memory_bytes_cases st len ptr) as [[b ->] | [e ->]];
    [|apply host_keeps_refl].
  unfold bind, lift. destruct (Buffer_toString b encoding) as [text | e |];
    try apply host_keeps_refl.
  repeat split; try reflexivity.
  - exists [text]. reflexivity.
  - exists []. split; [symmetry; apply app_nil_r | constructor].
Qed.

Lemma keeps_panic_utf8 (st : State) (len ptr : Z) : host_keeps st (panic_utf8 len ptr st).2.
Proof.
  unfold panic_utf8. unfold bind at 1.
  destruct (memory_bytes_cases st len ptr) as [[b ->] | [e ->]];
    [|apply host_keeps_refl].
  unfold bind, lift. destruct (Buffer_toString b "utf8"); apply host_keeps_refl.
Qed.

Lemma keeps_abort (st : State) (a b c d : Z) : host_keeps st (abort a b c d st).2.
Proof.
  unfold abort. unfold bind at 1.
  pose proof (readUTF16CStr_state st a) as Ha.
  destruct (readUTF16CStr a st) as [[msg | e |] s]; cbn in Ha; subst s;
    try apply host_keeps_refl.
  unfold bind at 1.
  pose proof (readUTF16CStr_state st b) as Hb.
  destruct (readUTF16CStr b st) as [[filename | e |] s]; cbn in Hb; subst s;
    apply host_keeps_refl.
Qed.

Lemma keeps_storage_read (st : State) (key_len key_ptr register_id : Z) :
  host_keeps st (storage_read key_len key_ptr register_id st).2.
Proof.
  unfold storage_read. unfold bind at 1.
  destruct (memory_bytes_cases st key_len key_ptr) as [[b ->] | [e ->]];
    [|apply host_keeps_refl].
  unfold bind at 1. unfold get at 1.
  unfold bind at 1. unfold lift at 1. rewrite compKey_bytes.
  unfold bind at 1. unfold postMessage, modify.
  unfold bind at 1. unfold receive. cbn [port].
  assert (Hreq : forall r polls,
            host_keeps st
              (mkState (ctx st) r
                 (posted st
                  ++ [mkMessage None None None (Some "storage_read")
                        (Some (String.list_byte_of_string (contractId (ctx st))
                               ++ [x3a] ++ b))])
                 polls)).
  { intros r polls. repeat split; try reflexivity.
    - exists []. symmetry. apply app_nil_r.
    - eexists. split; [reflexivity|]. constructor; [|constructor].
      repeat split; try reflexivity. eexists. reflexivity. }
  destruct (first_message (port st)) as [[[data|] rest]|]; cbn; apply Hreq.
Qed.

Lemma returns_nothing_state (m : Host unit) (st : State) :
  (returns_nothing m st).2 = (m st).2.
Proof. unfold returns_nothing, bind, ret. destruct (m st) as [[[] | e |] s]; reflexivity. Qed.

Lemma returns_u64_state (m : Host Z) (st : State) : (returns_u64 m st).2 = (m st).2.
Proof. unfold returns_u64, bind, ret. destruct (m st) as [[z | e |] s]; reflexivity. Qed.

Lemma assoc_Forall {A} (P : A -> Prop) (name : string) (table : list (string * A)) (v : A) :
  Forall (fun entry => P entry.2) table -> assoc name table = Some v -> P v.
Proof.
  induction 1 as [|[k x] table Hx _ IH]; cbn; [discriminate|].
  destruct (String.eqb k name); [intros [= <-]; exact Hx | exact IH].
Qed.

Ltac keeps_entry :=
  intros args st; cbn [snd prohibited unimplemented];
  unfold fn0, fn1, fn2, fn3, fn4;
  repeat match goal with
         | |- context [match ?l with [] => _ | _ :: _ => _ end] => destruct l
         end;
  try apply host_keeps_refl;
  rewrite ?returns_nothing_state, ?returns_u64_state;
  first [ apply host_keeps_refl
        | apply keeps_read_register
        | apply keeps_log
        | apply keeps_panic_utf8
        | apply keeps_abort
        | apply keeps_storage_read
        | unfold input, value_return; host_unfold; cbn;
          repeat split; try reflexivity;
          [ exists []; symmetry; apply app_nil_r
          | exists []; split; [symmetry; apply app_nil_r | constructor] ] ].

Lemma env_keeps :
  Forall (fun entry : string * HostFn =>
            forall args st, host_keeps st (entry.2 args st).2) env.
Proof.
  unfold env. repeat (apply Forall_cons; split; [keeps_entry|]). constructor.
Qed.

Lemma call_import_keeps (name : string) (args : list Z) (st : State) :
  host_keeps st (call_import name args st).2.
Proof.
  unfold call_import. destruct (assoc name env) as [f|] eqn:E; [|apply host_keeps_refl].
  exact (assoc_Forall (fun f : HostFn => forall args st, host_keeps st (f args st).2)
           name env f env_keeps E args st).
Qed.

Lemma store_keeps (ptr : nat) (bytes : list byte) (st : State) :
  host_keeps st (store ptr bytes st).2.
Proof.
  unfold store. host_unfold.
  destruct (decide (ptr + length bytes <= length (memory (ctx st)))%nat) as [Hfit|];
    [|apply host_keeps_refl].
  repeat split; try reflexivity.
  - cbn. rewrite !length_app, length_take, length_drop. lia.
  - exists []. symmetry. apply app_nil_r.
  - exists []. split; [symmetry; apply app_nil_r | constructor].
Qed.

Lemma try_import_state (name : string) (args : list Z) (st : State) :
  (try_import name args st).2 = (call_import name args st).2.
Proof.
  unfold try_import, call_import. destruct (assoc name env) as [f|]; [|reflexivity].
  destruct (f args st) as [[v | e |] s]; reflexivity.
Qed.

Lemma run_keeps (g : Guest) (st : State) : host_keeps st (run g st).2.
Proof.
  revert st.
  induction g as [| message | | ptr bytes k IH | k IH | name args k IH
                  | name args k IH handler IHh];
    intros st; cbn [run]; try apply host_keeps_refl.
  - unfold bind. pose proof (store_keeps ptr bytes st) as Hs.
    destruct (store ptr bytes st) as [[[] | e |] s]; cbn in Hs; try exact Hs.
    eapply host_keeps_trans; [exact Hs | apply IH].
  - unfold bind, get. apply IH.
  - unfold bind. pose proof (call_import_keeps name args st) as Hc.
    destruct (call_import name args st) as [[v | e |] s]; cbn in Hc; try exact Hc.
    eapply host_keeps_trans; [exact Hc | apply IH].
  - unfold bind. pose proof (call_import_keeps name args st) as Hc.
    rewrite <- try_import_state in Hc.
    destruct (try_import name args st) as [[[v|] | e |] s]; cbn in Hc; try exact Hc.
    + eapply host_keeps_trans; [exact Hc | apply IH].
    + eapply host_keeps_trans; [exact Hc | apply IHh].
Qed.

(** No host function resizes the guest memory, whatever its arguments and
    however it ends: [read_register] writes in place, the others only
    read. *)
Theorem imports_keep_memory_size (name : string) (args : list Z) (st : State) :
  length (memory (ctx (call_import name args st).2)) = length (memory (ctx st)).
Proof. destruct (call_import_keeps name args st) as (_ & _ & _ & Hm & _). exact Hm. Qed.

(** Whatever the guest does and however its run ends, the block height,
    contract identifier and method arguments of the call are those it
    started with (so [block_index] and [input] answer the same at every
    point of the run). *)
Theorem run_keeps_call_identity (g : Guest) (st : State) :
  let st' := (run g st).2 in
  blockHeight (ctx st') = blockHeight (ctx st)
  /\ contractId (ctx st') = contractId (ctx st)
  /\ methodArgs (ctx st') = methodArgs (ctx st).
Proof.
  destruct (run_keeps g st) as (Hb & Hc & Ha & _). repeat split; assumption.
Qed.

(** Logs only grow: at the end of a run, however it ends, the log
    sequence starts with the entries it had before, in the same order. *)
Theorem run_logs_grow (g : Guest) (st : State) :
  exists more, logs (ctx (run g st).2) = logs (ctx st) ++ more.
Proof. destruct (run_keeps g st) as (_ & _ & _ & _ & Hl & _). exact Hl. Qed.


End HostRuntime.

(** * Further properties of the worker pool *)

Section PoolBehaviour.
Context {client : StorageClient}.
Variable env_value : option string.

(** ** A promise settles once *)

Lemma settle_keeps_settled (promise promise' : PromiseId) (s s' : Settlement) (p : Pool) :
  promises p !! promise' = Some s' -> promises (settle promise s p) !! promise' = Some s'.
Proof.
  intros Hset. unfold settle. destruct (promises p !! promise) eqn:E; [exact Hset|].
  cbn. rewrite lookup_insert_ne; [exact Hset | congruence].
Qed.

Lemma start_promises (t : Task) (promise : PromiseId) (p : Pool) :
  promises (start env_value t promise p) = promises p.
Proof. apply (start_frame env_value t promise p). Qed.

Lemma emit_freed_promises (p : Pool) : promises (emit_freed env_value p) = promises p.
Proof. apply (emit_freed_frame env_value p). Qed.

Lemma step_keeps_settled (ev : Event) (p : Pool) (promise : PromiseId) (s : Settlement) :
  promises p !! promise = Some s -> promises (step env_value ev p) !! promise = Some s.
Proof.
  intros Hset.
  destruct ev as [t | worker m | worker err | worker code | timer | |]; cbn [step].
  - unfold runContract. cbn. rewrite start_promises. exact Hset.
  - unfold on_worker_message.
    destruct (kTaskInfo p !! worker) as [info|]; [|exact Hset].
    match goal with
    | |- context [if truthy_string (msg_methodName m) then p else ?q] =>
        assert (Hq : promises (if truthy_string (msg_methodName m) then p else q)
                     = promises p)
          by (destruct (truthy_string (msg_methodName m));
              [reflexivity | rewrite emit_freed_promises; reflexivity]);
        generalize dependent (if truthy_string (msg_methodName m) then p else q)
    end.
    intros q Hq. rewrite <- Hq in Hset.
    destruct (msg_error m); [apply settle_keeps_settled; exact Hset|].
    destruct (msg_result m); [apply settle_keeps_settled; exact Hset|].
    destruct (msg_methodName m), (msg_compKey m); try exact Hset.
    destruct (String.eqb _ _); exact Hset.
  - unfold on_worker_error.
    destruct (kTaskInfo p !! worker) as [info|].
    + match goal with |- context [addNewWorker env_value ?q] =>
        destruct (addNewWorker_spec env_value q) as (_ & _ & _ & _ & ->) end.
      cbn. apply settle_keeps_settled. exact Hset.
    + destruct (error_listener p); [|exact Hset].
      match goal with |- context [addNewWorker env_value ?q] =>
        destruct (addNewWorker_spec env_value q) as (_ & _ & _ & _ & ->) end.
      exact Hset.
  - unfold on_worker_exit, on_worker_error.
    destruct (kTaskInfo p !! worker) as [info|].
    + match goal with |- context [addNewWorker env_value ?q] =>
        destruct (addNewWorker_spec env_value q) as (_ & _ & _ & _ & ->) end.
      cbn. apply settle_keeps_settled. exact Hset.
    + destruct (error_listener p); [|exact Hset].
      match goal with |- context [addNewWorker env_value ?q] =>
        destruct (addNewWorker_spec env_value q) as (_ & _ & _ & _ & ->) end.
      exact Hset.
  - unfold on_timeout. destruct (timers p !! timer) as [[worker delay]|]; [|exact Hset].
    cbn. destruct (kTaskInfo p !! worker); exact Hset.
  - exact Hset.
  - rewrite close_spec. exact Hset.
Qed.

(** Once the promise of a call is settled, no later event changes its
    outcome: whatever messages, errors, exits, timers, calls or [close]
    follow, the caller keeps the settlement it got. *)
Theorem settled_stays_settled (events : list Event) (p : Pool) (promise : PromiseId)
    (s : Settlement) :
  promises p !! promise = Some s ->
  promises (fold_left (fun p ev => step env_value ev p) events p) !! promise = Some s.
Proof.
  revert p. induction events as [|ev events IH]; intros p Hset; [exact Hset|].
  cbn. apply IH. apply step_keeps_settled. exact Hset.
Qed.

(** ** Completion messages *)

(** A failure of the guest that the worker reports ([{ error }]: a panic,
    an abort, a prohibited or unimplemented call, a trap) rejects the
    caller with that error and is no fault of the worker: the worker is
    neither terminated nor replaced. *)
Theorem failure_message_rejects (p : Pool) (worker : WorkerId) (info : TaskInfo)
    (error : Exception) :
  kTaskInfo p !! worker = Some info ->
  promises p !! ti_promise info = None ->
  let p' := on_worker_message env_value worker (mkMessage None None (Some error) None None) p in
  promises p' !! ti_promise info = Some (Rejected error)
  /\ workers p' = workers p
  /\ constructed p' = constructed p
  /\ terminated p' = terminated p.
Proof.
  intros Hinfo Hpending p'.
  destruct (on_worker_message_fields env_value worker
              (mkMessage None None (Some error) None None) p) as (_ & Hw & Hc & Ht).
  split; [|repeat split; assumption].
  subst p'. unfold on_worker_message. rewrite Hinfo. cbn -[emit_freed].
  match goal with |- context [emit_freed env_value ?q] =>
    pose proof (emit_freed_frame env_value q) as (_ & _ & _ & _ & Hp & _);
    change (promises q) with (promises p) in Hp;
    generalize dependent (emit_freed env_value q) end.
  intros r Hp.
  unfold settle. rewrite Hp, Hpending. cbn. apply lookup_insert_eq.
Qed.

(** A completion with a result resolves the caller with that result and
    the logs of the call, and leaves the set of workers alone. *)
Theorem result_message_resolves (p : Pool) (worker : WorkerId) (info : TaskInfo)
    (result : list byte) (logs : list string) :
  kTaskInfo p !! worker = Some info ->
  promises p !! ti_promise info = None ->
  let p' := on_worker_message env_value worker
              (mkMessage (Some result) (Some logs) None None None) p in
  promises p' !! ti_promise info = Some (Resolved result (Some logs))
  /\ workers p' = workers p
  /\ constructed p' = constructed p
  /\ terminated p' = terminated p.
Proof.
  intros Hinfo Hpending p'.
  destruct (on_worker_message_fields env_value worker
              (mkMessage (Some result) (Some logs) None None None) p) as (_ & Hw & Hc & Ht).
  split; [|repeat split; assumption].
  exact (finished_message_settles env_value p worker info (Some result) logs Hinfo Hpending).
Qed.

(** ** Crashes *)

Lemma start_reports (t : Task) (promise : PromiseId) (p : Pool) :
  pool_errors (start env_value t promise p) = pool_errors p
  /\ uncaught (start env_value t promise p) = uncaught p.
Proof. unfold start. destruct (pop (freeWorkers p)) as [[w rest]|]; split; reflexivity. Qed.

Lemma addNewWorker_reports (p : Pool) :
  pool_errors (addNewWorker env_value p) = pool_errors p
  /\ uncaught (addNewWorker env_value p) = uncaught p.
Proof.
  unfold addNewWorker.
  match goal with |- context [emit_freed env_value ?q] =>
    apply (emit_freed_ind env_value
             (fun r => pool_errors r = pool_errors p /\ uncaught r = uncaught p) q) end.
  - intros t promise r [He Hu]. destruct (start_reports t promise r) as [-> ->].
    split; assumption.
  - split; reflexivity.
Qed.

Lemma indexOf_absent (w : WorkerId) (l : list WorkerId) : w ∉ l -> indexOf w l = -1.
Proof.
  induction l as [|x l IH]; intros Hout; [reflexivity|].
  apply not_elem_of_cons in Hout as [Hne Hout]. cbn.
  destruct (decide (x = w)); [congruence|]. rewrite (IH Hout). reflexivity.
Qed.

Lemma splice_last {A} (l : list A) (x : A) : splice (-1) 1 (l ++ [x]) = l.
Proof.
  unfold splice. rewrite length_app. cbn [length].
  destruct (Z.ltb_spec (-1) 0); [|lia].
  replace (Z.to_nat (Z.max (Z.of_nat (length l + 1) + -1) 0)) with (length l) by lia.
  match goal with |- context [drop (Z.to_nat ?n)] =>
    replace (Z.to_nat n) with (length l + 1)%nat by lia end.
  rewrite take_app_length, drop_ge by (rewrite length_app; cbn; lia).
  apply app_nil_r.
Qed.

(** What the error handler does to the list of workers, for an event
    of any worker the pool constructed: a new worker joins the list; the
    worker of the event leaves it when it is in it, and otherwise
    [indexOf] is [-1] and [splice(-1, 1)] removes the last worker of the
    list in its place. *)
Lemma replace_any_spec (worker : WorkerId) (q : Pool) :
  pool_inv env_value q -> (worker < constructed q)%nat ->
  let q' := addNewWorker env_value
              (set_workers q (splice (indexOf worker (workers q)) 1 (workers q))) in
  constructed q ∈ workers q'
  /\ constructed q' = S (constructed q)
  /\ length (workers q') = numThreads q'
  /\ terminated q' = terminated q
  /\ promises q' = promises q
  /\ (worker ∈ workers q -> worker ∉ workers q')
  /\ (worker ∉ workers q ->
      exists rest last, workers q = rest ++ [last] /\ workers q' = rest ++ [constructed q]).
Proof.
  intros Hinv Hlt q'.
  destruct (addNewWorker_spec env_value
              (set_workers q (splice (indexOf worker (workers q)) 1 (workers q))))
    as (Hw0 & Hc0 & _ & Ht0 & Hp0).
  assert (Hw : workers q' = splice (indexOf worker (workers q)) 1 (workers q)
                            ++ [constructed q]) by exact Hw0.
  assert (Hc : constructed q' = S (constructed q)) by exact Hc0.
  assert (Ht : terminated q' = terminated q) by exact Ht0.
  assert (Hp : promises q' = promises q) by exact Hp0.
  clear Hw0 Hc0 Ht0 Hp0.
  pose proof (replace_worker_inv env_value worker q Hlt Hinv) as [_ [Hlen _]].
  fold q' in Hlen.
  split; [rewrite Hw; apply elem_of_app; right; apply list_elem_of_singleton; reflexivity|].
  split; [exact Hc|]. split; [exact Hlen|]. split; [exact Ht|]. split; [exact Hp|].
  split.
  - intros Hin. exact (proj1 (replace_worker_spec env_value worker q Hinv Hin)).
  - intros Hout.
    destruct Hinv as [_ [Hsize Hzero]].
    assert (Hne : workers q <> []).
    { intros Hnil. rewrite Hnil in Hsize. cbn in Hsize.
      symmetry in Hsize. specialize (Hzero Hsize). lia. }
    destruct (exists_last Hne) as (rest & last & Hlast).
    exists rest, last. split; [exact Hlast|].
    rewrite Hw, (indexOf_absent worker (workers q) Hout), Hlast, splice_last. reflexivity.
Qed.

(** A worker the pool constructed crashes while it runs a call (an
    'error' event that no timeout caused): the caller is rejected with the
    error of the crash itself and a newly constructed worker joins the
    pool, which has [numThreads] workers again. When the worker is in the
    list of workers, it is the one that leaves it; when it is not (a
    replacement that an earlier exit dropped from the list), the last
    worker of the list is removed in its place. *)
Theorem crash_rejects_and_replaces (p : Pool) (worker : WorkerId) (err : Exception)
    (info : TaskInfo) :
  reachable env_value p ->
  (worker < constructed p)%nat ->
  kTaskInfo p !! worker = Some info ->
  ti_didTimeout info = false ->
  promises p !! ti_promise info = None ->
  let p' := on_worker_error env_value worker err p in
  promises p' !! ti_promise info = Some (Rejected err)
  /\ constructed p ∈ workers p'
  /\ constructed p' = S (constructed p)
  /\ length (workers p') = numThreads p'
  /\ terminated p' = terminated p
  /\ (worker ∈ workers p -> worker ∉ workers p')
  /\ (worker ∉ workers p ->
      exists rest last, workers p = rest ++ [last] /\ workers p' = rest ++ [constructed p]).
Proof.
  intros Hreach Hlt Hinfo Hflag Hpending p'.
  pose proof (reachable_inv env_value p Hreach) as Hinv.
  assert (Hp' : p' = _) by (apply (on_worker_error_busy env_value p worker err info Hinfo)).
  cbv zeta in Hp'. rewrite Hflag in Hp'.
  set (q := settle (ti_promise info) (Rejected err) p) in *.
  destruct (settle_fields (ti_promise info) (Rejected err) p)
    as (Hqn & Hqw & Hqc & Hqt & _).
  fold q in Hqn, Hqw, Hqc, Hqt.
  assert (Hqinv : pool_inv env_value q).
  { eapply pool_inv_frame; try eassumption. apply settle_wf. apply Hinv. }
  assert (Hqp : promises q !! ti_promise info = Some (Rejected err)).
  { subst q. unfold settle. rewrite Hpending. cbn. apply lookup_insert_eq. }
  destruct (replace_any_spec worker q Hqinv)
    as (Hnew & Hc & Hlen & Ht & Hp & Hin & Hout).
  { rewrite Hqc. exact Hlt. }
  rewrite <- Hp' in Hnew, Hc, Hlen, Ht, Hp, Hin, Hout.
  rewrite Hqc in Hnew, Hc, Hout. rewrite Hqw in Hin, Hout. rewrite Hqt in Ht.
  split; [rewrite Hp; exact Hqp|].
  split; [exact Hnew|]. split; [exact Hc|]. split; [exact Hlen|]. split; [exact Ht|].
  split; assumption.
Qed.

(** A worker the pool constructed emits 'error' or exits while it has no
    call. No promise changes. With an 'error' listener on the pool the
    error is emitted there and a newly constructed worker joins the pool,
    which has [numThreads] workers again: the worker of the event leaves
    the list of workers when it is in it, and otherwise (it was removed
    by an earlier event) the last worker of the list is removed in its
    place. Without a listener the emit throws: the error goes uncaught,
    the list of workers stays as it is and no worker is constructed. *)
Theorem idle_crash (p : Pool) (worker : WorkerId) (err : Exception) :
  reachable env_value p ->
  (worker < constructed p)%nat ->
  kTaskInfo p !! worker = None ->
  let p' := on_worker_error env_value worker err p in
  promises p' = promises p
  /\ if error_listener p
     then pool_errors p' = pool_errors p ++ [err] /\ uncaught p' = uncaught p
          /\ constructed p ∈ workers p'
          /\ constructed p' = S (constructed p)
          /\ length (workers p') = numThreads p'
          /\ (worker ∈ workers p -> worker ∉ workers p')
          /\ (worker ∉ workers p ->
              exists rest last,
                workers p = rest ++ [last] /\ workers p' = rest ++ [constructed p])
     else uncaught p' = uncaught p ++ [err] /\ pool_errors p' = pool_errors p
          /\ workers p' = workers p /\ constructed p' = constructed p.
Proof.
  intros Hreach Hlt Hinfo p'.
  pose proof (reachable_inv env_value p Hreach) as Hinv.
  subst p'. unfold on_worker_error. rewrite Hinfo.
  destruct (error_listener p); [|repeat split].
  set (q := set_pool_errors p (pool_errors p ++ [err])).
  assert (Hqinv : pool_inv env_value q).
  { eapply pool_inv_frame; try exact Hinv; try reflexivity.
    destruct Hinv as [(? & ? & ? & ? & ?) _].
    split; [|split; [|split; [|split]]]; cbn; auto. }
  destruct (replace_any_spec worker q Hqinv Hlt)
    as (Hnew & Hc & Hlen & _ & Hp & Hin & Hout).
  match goal with |- context [addNewWorker env_value ?r] =>
    destruct (addNewWorker_reports r) as [He Hu] end.
  split; [exact Hp|]. split; [exact He|]. split; [exact Hu|].
  split; [exact Hnew|]. split; [exact Hc|]. split; [exact Hlen|].
  split; assumption.
Qed.

(** ** An error followed by the exit of the same worker *)

Lemma start_keeps_busy (t : Task) (promise : PromiseId) (p : Pool) (w : WorkerId) :
  is_Some (kTaskInfo p !! w) -> is_Some (kTaskInfo (start env_value t promise p) !! w).
Proof.
  intros Hbusy. unfold start. destruct (pop (freeWorkers p)) as [[w' rest]|]; [|exact Hbusy].
  cbn. rewrite lookup_insert. case_decide; [eexists; reflexivity | exact Hbusy].
Qed.

Lemma addNewWorker_keeps_busy (p : Pool) (w : WorkerId) :
  is_Some (kTaskInfo p !! w) -> is_Some (kTaskInfo (addNewWorker env_value p) !! w).
Proof.
  intros Hbusy. unfold addNewWorker.
  apply emit_freed_ind; [intros; apply start_keeps_busy; assumption | exact Hbusy].
Qed.

(** The error handler does not forget the task of the worker it replaces.
    So when it runs a second time for the same worker (the 'error' event
    of a crash is followed by the 'exit' event, which emits 'error'
    again), it no longer finds the worker in the list, [indexOf] answers
    -1, and [splice(-1, 1)] removes the last element: the replacement
    constructed the first time. A second replacement is constructed; the
    first one is no longer among the workers of the pool (which [close]
    would terminate), though nothing has terminated it. *)
Theorem error_then_exit_drops_the_replacement (p : Pool) (worker : WorkerId)
    (err : Exception) (code : Z) :
  reachable env_value p ->
  worker ∈ workers p ->
  is_Some (kTaskInfo p !! worker) ->
  let p1 := on_worker_error env_value worker err p in
  let p2 := on_worker_exit env_value worker code p1 in
  constructed p ∈ workers p1
  /\ (constructed p ∉ workers p2)
  /\ (constructed p ∉ terminated p2)
  /\ S (constructed p) ∈ workers p2
  /\ constructed p2 = S (S (constructed p))
  /\ length (workers p2) = numThreads p2.
Proof.
  intros Hreach Hin [info Hinfo] p1 p2.
  pose proof (reachable_inv env_value p Hreach) as Hinv.
  assert (Hlt : (worker < constructed p)%nat).
  { destruct Hinv as ((_ & Hw & _) & _). rewrite Forall_forall in Hw. apply Hw. exact Hin. }
  assert (Hreach1 : reachable env_value p1)
    by (exact (reachable_step env_value p (WorkerError worker err) Hreach Hlt)).
  (* the first handling *)
  assert (Hp1 : p1 = _) by (apply (on_worker_error_busy env_value p worker err info Hinfo)).
  cbv zeta in Hp1.
  set (q := settle (ti_promise info)
              (Rejected (if ti_didTimeout info then timed_out info else err)) p) in *.
  destruct (settle_fields (ti_promise info)
              (Rejected (if ti_didTimeout info then timed_out info else err)) p)
    as (Hqn & Hqw & Hqc & Hqt & Hqk & _).
  fold q in Hqn, Hqw, Hqc, Hqt, Hqk.
  set (rest := splice (indexOf worker (workers q)) 1 (workers q)) in *.
  destruct (addNewWorker_spec env_value (set_workers q rest)) as (Hw1 & Hc1 & _ & Ht1 & _).
  rewrite <- Hp1 in Hw1, Hc1, Ht1. cbn in Hw1, Hc1, Ht1. rewrite Hqc in Hw1, Hc1.
  assert (Hrest : forall w, w ∈ rest -> (w < constructed p)%nat /\ w <> worker).
  { intros w Hw. destruct Hinv as ((Hnd & Hall & _) & _).
    assert (Hne : workers q <> []).
    { rewrite Hqw. intros Hnil. rewrite Hnil in Hin. inversion Hin. }
    destruct (splice_indexOf worker (workers q) Hne) as (a & Ha & Hsplice & Hat).
    subst rest. rewrite Hsplice in Hw. rewrite Hqw in *.
    split.
    - rewrite Forall_forall in Hall. apply Hall.
      eapply elem_of_sublist; [exact Hw | apply remove_at_sublist].
    - intros ->. exact (remove_at_absent a (workers p) worker Hnd (Hat Hin) Hw). }
  assert (Hbusy1 : is_Some (kTaskInfo p1 !! worker)).
  { rewrite Hp1. apply addNewWorker_keeps_busy. cbn. rewrite Hqk, Hinfo. eexists. reflexivity. }
  destruct Hbusy1 as [info1 Hinfo1].
  (* the second handling *)
  assert (Hlt1 : (worker < constructed p1)%nat) by (rewrite Hc1; lia).
  assert (Hreach2 : reachable env_value p2)
    by (exact (reachable_step env_value p1 (WorkerExit worker code) Hreach1 Hlt1)).
  assert (Hp2 : p2 = _)
    by (apply (on_worker_error_busy env_value p1 worker _ info1 Hinfo1)).
  cbv zeta in Hp2.
  match type of Hp2 with context [settle ?a ?b p1] =>
    destruct (settle_fields a b p1) as (_ & Hq1w & Hq1c & Hq1t & _);
    set (q1 := settle a b p1) in Hp2, Hq1w, Hq1c, Hq1t end.
  assert (Habsent : worker ∉ workers q1).
  { rewrite Hq1w, Hw1. intros Hmem. apply elem_of_app in Hmem as [Hmem | Hmem].
    - destruct (Hrest _ Hmem) as [_ Hne]. congruence.
    - apply list_elem_of_singleton in Hmem. lia. }
  rewrite (indexOf_absent _ _ Habsent) in Hp2.
  rewrite Hq1w, Hw1, splice_last in Hp2.
  destruct (addNewWorker_spec env_value (set_workers q1 rest)) as (Hw2 & Hc2 & _ & Ht2 & _).
  rewrite <- Hp2 in Hw2, Hc2, Ht2. cbn in Hw2, Hc2, Ht2. rewrite Hq1c, Hc1 in Hw2, Hc2.
  split; [rewrite Hw1; apply elem_of_app; right; apply list_elem_of_singleton; reflexivity|].
  split.
  { rewrite Hw2. intros Hmem. apply elem_of_app in Hmem as [Hmem | Hmem].
    - destruct (Hrest _ Hmem). lia.
    - apply list_elem_of_singleton in Hmem. lia. }
  split.
  { rewrite Ht2, Hq1t, Ht1, Hqt. intros Hmem.
    destruct Hinv as ((_ & _ & _ & Hterm & _) & _).
    rewrite Forall_forall in Hterm. specialize (Hterm _ Hmem). lia. }
  split; [rewrite Hw2; apply elem_of_app; right; apply list_elem_of_singleton; reflexivity|].
  split; [exact Hc2|].
  apply (reachable_inv env_value p2 Hreach2).
Qed.

(** ** Capacity and waiting callers *)

Lemma emit_freed_idle (p : Pool) : freed_listeners p = [] -> emit_freed env_value p = p.
Proof. destruct p. cbn. intros ->. reflexivity. Qed.

Lemma new_pool (n : nat) :
  new env_value n = mkPool n (seq 0 n) (seq 0 n) ∅ [] false ∅ ∅ n 0%nat 0%nat [] [] [] [].
Proof.
  unfold new.
  set (p0 := mkPool n [] [] ∅ [] false ∅ ∅ 0%nat 0%nat 0%nat [] [] [] []).
  assert (Hiter : forall k,
            Nat.iter k (addNewWorker env_value) p0
            = mkPool n (seq 0 k) (seq 0 k) ∅ [] false ∅ ∅ k 0%nat 0%nat [] [] [] []).
  { induction k as [|k IH]; [reflexivity|].
    change (Nat.iter (S k) (addNewWorker env_value) p0)
      with (addNewWorker env_value (Nat.iter k (addNewWorker env_value) p0)).
    rewrite IH. unfold addNewWorker. rewrite emit_freed_idle by reflexivity.
    rewrite seq_S. reflexivity. }
  apply Hiter.
Qed.

Lemma pop_snoc {A} (l : list A) (x : A) : pop (l ++ [x]) = Some (x, l).
Proof.
  unfold pop. rewrite reverse_snoc.
  change (Some (x, reverse (reverse l)) = Some (x, l)).
  rewrite reverse_involutive. reflexivity.
Qed.

(** Calls submitted while enough workers are free are all dispatched at
    once, each to a worker of its own, taken from the end of the free
    list. *)
Lemma submit_all_within_capacity (ts : list Task) (p : Pool) (kept taken : list WorkerId) :
  freeWorkers p = kept ++ taken -> length taken = length ts ->
  freeWorkers (submit_all env_value ts p) = kept
  /\ freed_listeners (submit_all env_value ts p) = freed_listeners p
  /\ to_worker (submit_all env_value ts p)
     = to_worker p ++ zip_with (fun w t => (w, PostTask t)) (reverse taken) ts.
Proof.
  revert p taken. induction ts as [|t ts IH]; intros p taken Hfree Hlen.
  - destruct taken; [|discriminate]. cbn. rewrite app_nil_r in *. auto.
  - revert Hfree Hlen. induction taken as [|w taken' _] using rev_ind;
      intros Hfree Hlen; [discriminate|].
    rewrite length_app in Hlen. cbn in Hlen.
    assert (Hpop : pop (freeWorkers p) = Some (w, kept ++ taken'))
      by (rewrite Hfree, app_assoc; apply pop_snoc).
    unfold submit_all. cbn [fold_left]. fold (submit_all env_value ts (runContract env_value t p).2).
    destruct (IH (runContract env_value t p).2 taken') as (Hf & Hl & Ht).
    + unfold runContract, start. cbn. rewrite Hpop. reflexivity.
    + lia.
    + rewrite Hf, Hl, Ht. unfold runContract, start. cbn. rewrite Hpop. cbn.
      rewrite reverse_app. cbn. rewrite <- app_assoc. auto.
Qed.

(** A pool of [n] workers starts with all of them free. It takes [n]
    calls at once, one per worker, and no caller waits. A call submitted
    after that is given to no worker and gets no timer: it waits for a
    worker to be freed. *)
Theorem pool_capacity (n : nat) (ts : list Task) (t : Task) :
  length ts = n ->
  let p := new env_value n in
  let busy := submit_all env_value ts p in
  let waiting := runContract env_value t busy in
  workers p = seq 0 n /\ freeWorkers p = seq 0 n
  /\ freeWorkers busy = []
  /\ freed_listeners busy = []
  /\ to_worker busy = zip_with (fun w t => (w, PostTask t)) (reverse (seq 0 n)) ts
  /\ to_worker waiting.2 = to_worker busy
  /\ timers waiting.2 = timers busy
  /\ kTaskInfo waiting.2 = kTaskInfo busy
  /\ freed_listeners waiting.2 = [(t, waiting.1)].
Proof.
  intros Hlen p busy waiting.
  assert (Hp : p = _) by apply new_pool.
  destruct (submit_all_within_capacity ts p [] (seq 0 n)) as (Hf & Hl & Ht).
  { rewrite Hp. reflexivity. }
  { rewrite length_seq. symmetry. exact Hlen. }
  fold busy in Hf, Hl, Ht.
  assert (Hl' : freed_listeners busy = []) by (rewrite Hl, Hp; reflexivity).
  split; [rewrite Hp; reflexivity|]. split; [rewrite Hp; reflexivity|].
  split; [exact Hf|]. split; [exact Hl'|].
  split; [rewrite Ht, Hp; reflexivity|].
  subst waiting. unfold runContract, start. cbn. rewrite Hf. cbn.
  rewrite Hl'. repeat split.
Qed.

Lemma requeue (waiting : list (Task * PromiseId)) (p : Pool) :
  freeWorkers p = [] ->
  fold_left (fun p '(t, promise) => start env_value t promise p) waiting p
  = set_freed_listeners p (freed_listeners p ++ waiting).
Proof.
  revert p. induction waiting as [|[t promise] waiting IH]; intros p Hfree.
  - cbn. rewrite app_nil_r. destruct p; reflexivity.
  - cbn [fold_left]. unfold start at 2. rewrite Hfree. cbn [pop reverse].
    rewrite IH by exact Hfree. cbn. rewrite <- app_assoc. reflexivity.
Qed.

Lemma settle_queue_fields (promise : PromiseId) (s : Settlement) (p : Pool) :
  to_worker (settle promise s p) = to_worker p
  /\ kTaskInfo (settle promise s p) = kTaskInfo p
  /\ freed_listeners (settle promise s p) = freed_listeners p
  /\ freeWorkers (settle promise s p) = freeWorkers p
  /\ timers (settle promise s p) = timers p
  /\ next_timer (settle promise s p) = next_timer p.
Proof. unfold settle. destruct (promises p !! promise); repeat split. Qed.

Lemma emit_freed_serves (q : Pool) (w : WorkerId) (t : Task) (promise : PromiseId)
    (waiting : list (Task * PromiseId)) :
  freeWorkers q = [w] ->
  freed_listeners q = (t, promise) :: waiting ->
  to_worker (emit_freed env_value q) = to_worker q ++ [(w, PostTask t)]
  /\ kTaskInfo (emit_freed env_value q)
     = <[w := mkTaskInfo promise (task_blockHeight t) (task_contractId t)
                (task_methodName t) (next_timer q) false]> (kTaskInfo q)
  /\ timers (emit_freed env_value q)
     = <[next_timer q := (w, CONTRACT_TIMEOUT_MS env_value)]> (timers q)
  /\ freeWorkers (emit_freed env_value q) = []
  /\ freed_listeners (emit_freed env_value q) = waiting.
Proof.
  destruct q. cbn. intros -> ->. unfold emit_freed.
  cbn [freed_listeners fold_left set_freed_listeners].
  match goal with
  | |- context [fold_left ?f waiting (start env_value t promise ?q0)] =>
      assert (Hstart : freeWorkers (start env_value t promise q0) = []) by reflexivity;
      rewrite (requeue waiting (start env_value t promise q0) Hstart)
  end.
  repeat split.
Qed.

(** When a worker reports the completion of its call while callers wait
    and no worker is free, the caller that has waited longest is given
    that worker at once, with a timer of its own; the other callers go on
    waiting in their order. *)
Theorem completion_serves_first_waiting (p : Pool) (worker : WorkerId) (info : TaskInfo)
    (m : Message) (t : Task) (promise : PromiseId) (waiting : list (Task * PromiseId)) :
  kTaskInfo p !! worker = Some info ->
  freeWorkers p = [] ->
  freed_listeners p = (t, promise) :: waiting ->
  msg_methodName m = None ->
  let p' := on_worker_message env_value worker m p in
  to_worker p' = to_worker p ++ [(worker, PostTask t)]
  /\ kTaskInfo p' !! worker
     = Some (mkTaskInfo promise (task_blockHeight t) (task_contractId t)
               (task_methodName t) (next_timer p) false)
  /\ timers p' !! next_timer p = Some (worker, CONTRACT_TIMEOUT_MS env_value)
  /\ freeWorkers p' = []
  /\ freed_listeners p' = waiting.
Proof.
  intros Hinfo Hfree Hwait Hname p'.
  subst p'. unfold on_worker_message. rewrite Hinfo, Hname. cbn [truthy_string].
  match goal with |- context [emit_freed env_value ?q0] =>
    destruct (emit_freed_serves q0 worker t promise waiting) as (H1 & H2 & H3 & H4 & H5);
    [cbn; rewrite Hfree; reflexivity | exact Hwait |];
    set (q := emit_freed env_value q0) in *
  end.
  cbn [to_worker kTaskInfo timers next_timer set_freeWorkers set_kTaskInfo set_timers]
    in H1, H2, H3.
  clearbody q.
  assert (Hq : to_worker q = to_worker p ++ [(worker, PostTask t)]
               /\ kTaskInfo q !! worker
                  = Some (mkTaskInfo promise (task_blockHeight t) (task_contractId t)
                            (task_methodName t) (next_timer p) false)
               /\ timers q !! next_timer p = Some (worker, CONTRACT_TIMEOUT_MS env_value)
               /\ freeWorkers q = []
               /\ freed_listeners q = waiting).
  { rewrite H1, H2, H3. repeat split; try assumption; apply lookup_insert_eq. }
  clear H1 H2 H3 H4 H5. destruct Hq as (H1 & H2 & H3 & H4 & H5).
  destruct (msg_error m) as [error|].
  { destruct (settle_queue_fields (ti_promise info) (Rejected error) q)
      as (-> & -> & -> & -> & -> & _). auto. }
  destruct (msg_result m) as [result|].
  { destruct (settle_queue_fields (ti_promise info) (Resolved result (msg_logs m)) q)
      as (-> & -> & -> & -> & -> & _). auto. }
  auto.
Qed.

(** ** One timer per call, cleared on completion *)

Lemma start_handles_fresh (t : Task) (promise : PromiseId) (p : Pool) :
  handles_fresh p -> handles_fresh (start env_value t promise p).
Proof.
  intros Hfresh. unfold start. destruct (pop (freeWorkers p)) as [[w rest]|]; [|exact Hfresh].
  intros worker info. cbn. rewrite lookup_insert. case_decide.
  - intros [= <-]. cbn. lia.
  - intros Hinfo. specialize (Hfresh _ _ Hinfo). lia.
Qed.

Lemma emit_freed_handles_fresh (p : Pool) :
  handles_fresh p -> handles_fresh (emit_freed env_value p).
Proof.
  intros Hfresh. apply emit_freed_ind; [intros; apply start_handles_fresh; assumption|].
  exact Hfresh.
Qed.

Lemma settle_handles_fresh (promise : PromiseId) (s : Settlement) (p : Pool) :
  handles_fresh p -> handles_fresh (settle promise s p).
Proof. intros Hfresh. unfold settle. destruct (promises p !! promise); exact Hfresh. Qed.

Lemma on_worker_error_handles_fresh (worker : WorkerId) (err : Exception) (p : Pool) :
  handles_fresh p -> handles_fresh (on_worker_error env_value worker err p).
Proof.
  intros Hfresh. unfold on_worker_error.
  destruct (kTaskInfo p !! worker) as [info|].
  - unfold addNewWorker. apply emit_freed_handles_fresh.
    exact (settle_handles_fresh _ _ p Hfresh).
  - destruct (error_listener p); [|exact Hfresh].
    unfold addNewWorker. apply emit_freed_handles_fresh. exact Hfresh.
Qed.

Lemma reachable_handles_fresh (p : Pool) : reachable env_value p -> handles_fresh p.
Proof.
  induction 1 as [n | p ev Hreach IH Hdel].
  - rewrite new_pool. intros worker info Hinfo. cbn in Hinfo.
    rewrite lookup_empty in Hinfo. discriminate.
  - destruct ev as [t | worker m | worker err | worker code | timer | |]; cbn [step].
    + unfold runContract. cbn [snd]. apply start_handles_fresh. exact IH.
    + unfold on_worker_message.
      destruct (kTaskInfo p !! worker) as [info|]; [|exact IH].
      match goal with
      | |- context [if truthy_string (msg_methodName m) then p else ?q] =>
          assert (Hq : handles_fresh (if truthy_string (msg_methodName m) then p else q));
          [destruct (truthy_string (msg_methodName m)); [exact IH|]
          |generalize dependent (if truthy_string (msg_methodName m) then p else q)]
      end.
      { apply emit_freed_handles_fresh. intros w i. cbn. intros Hi.
        rewrite lookup_delete in Hi. case_decide; [discriminate|]. exact (IH _ _ Hi). }
      intros q Hq.
      destruct (msg_error m); [apply settle_handles_fresh; exact Hq|].
      destruct (msg_result m); [apply settle_handles_fresh; exact Hq|].
      destruct (msg_methodName m), (msg_compKey m); try exact Hq.
      destruct (String.eqb _ _); exact Hq.
    + apply on_worker_error_handles_fresh. exact IH.
    + apply on_worker_error_handles_fresh. exact IH.
    + unfold on_timeout. destruct (timers p !! timer) as [[worker delay]|]; [|exact IH].
      cbn. destruct (kTaskInfo p !! worker) as [info|] eqn:Hinfo; [|exact IH].
      intros w i. cbn. rewrite lookup_insert. case_decide.
      * intros [= <-]. cbn. exact (IH _ _ Hinfo).
      * intros Hi. exact (IH _ _ Hi).
    + exact IH.
    + rewrite close_spec. exact IH.
Qed.

Lemma start_keeps_cleared (t : Task) (promise : PromiseId) (p : Pool) (timer : TimerId) :
  timers p !! timer = None /\ (timer < next_timer p)%nat ->
  timers (start env_value t promise p) !! timer = None
  /\ (timer < next_timer (start env_value t promise p))%nat.
Proof.
  intros [Hnone Hlt]. unfold start.
  destruct (pop (freeWorkers p)) as [[w rest]|]; [|split; assumption].
  cbn. split; [|lia]. rewrite lookup_insert_ne by lia. exact Hnone.
Qed.

(** The completion of a call clears its timer: once the pool has handled
    the completion message of a worker, the timer armed for that call is
    gone, and its firing would change nothing; it cannot terminate the
    worker, nor the next call the worker is given. *)
Theorem completion_clears_timer (p : Pool) (worker : WorkerId) (info : TaskInfo)
    (m : Message) :
  reachable env_value p ->
  kTaskInfo p !! worker = Some info ->
  msg_methodName m = None ->
  let p' := on_worker_message env_value worker m p in
  timers p' !! ti_timeoutHandle info = None
  /\ on_timeout (ti_timeoutHandle info) p' = p'.
Proof.
  intros Hreach Hinfo Hname p'.
  pose proof (reachable_handles_fresh p Hreach _ _ Hinfo) as Hlt.
  assert (Hnone : timers p' !! ti_timeoutHandle info = None).
  { subst p'. unfold on_worker_message. rewrite Hinfo, Hname. cbn [truthy_string].
    match goal with |- context [emit_freed env_value ?q0] =>
      assert (Hq : timers (emit_freed env_value q0) !! ti_timeoutHandle info = None
                   /\ (ti_timeoutHandle info < next_timer (emit_freed env_value q0))%nat);
      [apply emit_freed_ind; [intros; apply start_keeps_cleared; assumption|]
      |generalize dependent (emit_freed env_value q0)]
    end.
    { cbn. split; [apply lookup_delete_eq | exact Hlt]. }
    intros q [Hq _].
    destruct (msg_error m) as [error|].
    { destruct (settle_queue_fields (ti_promise info) (Rejected error) q)
        as (_ & _ & _ & _ & -> & _). exact Hq. }
    destruct (msg_result m) as [result|].
    { destruct (settle_queue_fields (ti_promise info) (Resolved result (msg_logs m)) q)
        as (_ & _ & _ & _ & -> & _). exact Hq. }
    exact Hq. }
  split; [exact Hnone|]. unfold on_timeout. rewrite Hnone. reflexivity.
Qed.

(** ** The size of the pool *)

(** In every state the pool reaches it has exactly [numThreads] workers,
    all distinct and all constructed by it, and every armed timer has the
    configured delay. *)
Theorem pool_size_is_kept (p : Pool) :
  reachable env_value p ->
  length (workers p) = numThreads p
  /\ NoDup (workers p)
  /\ Forall (fun w => (w < constructed p)%nat) (workers p)
  /\ forall timer worker delay,
       timers p !! timer = Some (worker, delay) -> delay = CONTRACT_TIMEOUT_MS env_value.
Proof.
  intros Hreach.
  destruct (reachable_inv env_value p Hreach) as [(Hnodup & Hw & _ & _ & Htimers) [Hlen _]].
  split; [exact Hlen|]. split; [exact Hnodup|]. split; [exact Hw|].
  intros timer worker delay Htimer. exact (proj2 (Htimers _ _ _ Htimer)).
Qed.

(** ** A free worker that dies *)

(** The error handler removes the dead worker from [workers] only: a
    worker that crashes or exits while it is free stays in [freeWorkers],
    behind its replacement, and is handed a call when the replacement is
    taken. *)
Theorem crashed_idle_worker_stays_free (p : Pool) (worker : WorkerId) (err : Exception) :
  reachable env_value p ->
  worker ∈ workers p ->
  worker ∈ freeWorkers p ->
  kTaskInfo p !! worker = None ->
  error_listener p = true ->
  freed_listeners p = [] ->
  let p' := on_worker_error env_value worker err p in
  freeWorkers p' = freeWorkers p ++ [constructed p]
  /\ (worker ∉ workers p')
  /\ worker ∈ freeWorkers p'.
Proof.
  intros Hreach Hin Hfree Hinfo Hlisten Hnone p'.
  pose proof (reachable_inv env_value p Hreach) as Hinv.
  assert (Hp' : p' = addNewWorker env_value
                       (set_workers (set_pool_errors p (pool_errors p ++ [err]))
                          (splice (indexOf worker (workers p)) 1 (workers p)))).
  { subst p'. unfold on_worker_error. rewrite Hinfo, Hlisten. reflexivity. }
  set (q := set_pool_errors p (pool_errors p ++ [err])) in Hp'.
  assert (Hqinv : pool_inv env_value q).
  { eapply pool_inv_frame; try exact Hinv; try reflexivity.
    destruct Hinv as [(? & ? & ? & ? & ?) _].
    split; [|split; [|split; [|split]]]; cbn; auto. }
  destruct (replace_worker_spec env_value worker q Hqinv Hin) as (Habs & _).
  change (workers q) with (workers p) in Habs. rewrite <- Hp' in Habs.
  assert (Hf : freeWorkers p' = freeWorkers p ++ [constructed p]).
  { rewrite Hp'. unfold addNewWorker. rewrite emit_freed_idle by exact Hnone. reflexivity. }
  split; [exact Hf|]. split; [exact Habs|].
  rewrite Hf. apply elem_of_app. left. exact Hfree.
Qed.

End PoolBehaviour.

(** * The further properties at concrete calls *)

(** A range of 5 bytes from offset 6 of an 8-byte memory. *)
Lemma range_outside_memory_throws_witness :
  ~ (0 <= 6 /\ 0 <= 5 /\ 6 + 5 <= Z.of_nat (length (memory (ctx hello_state))))
  /\ exists message,
       log_utf8 (platform := ascii_platform) 5 6 hello_state
       = (Throw (mkException RangeError message), hello_state).
Proof.
  assert (H1 : ~ (0 <= 6 /\ 0 <= 5
                  /\ 6 + 5 <= Z.of_nat (length (memory (ctx hello_state)))))
    by (cbn; lia).
  destruct (range_outside_memory_throws (platform := ascii_platform) hello_state 5 6 H1)
    as [message [Hlog _]].
  exact (conj H1 (ex_intro _ message Hlog)).
Defined.

(** [panic_utf8(5, 0)] on a memory that starts with [hello]. *)
Lemma panic_utf8_message_witness :
  Z.of_nat (length (memory (ctx hello_state))) <= MAX_SAFE_INTEGER
  /\ 0 <= 0 /\ 0 <= 5 /\ 0 + 5 <= Z.of_nat (length (memory (ctx hello_state)))
  /\ panic_utf8 (platform := ascii_platform) 5 0 hello_state
     = (Throw (mkException Error "panic: hello"), hello_state).
Proof.
  assert (H1 : Z.of_nat (length (memory (ctx hello_state))) <= MAX_SAFE_INTEGER)
    by (cbn; unfold MAX_SAFE_INTEGER; lia).
  assert (H2 : 0 <= 0) by lia.
  assert (H3 : 0 <= 5) by lia.
  assert (H4 : 0 + 5 <= Z.of_nat (length (memory (ctx hello_state)))) by (cbn; lia).
  refine (conj H1 (conj H2 (conj H3 (conj H4 _)))).
  rewrite (panic_utf8_message (platform := ascii_platform) hello_state 5 0 H1 H2 H3 H4).
  reflexivity.
Defined.

(** [log_utf8(5, 0)] on the same memory. *)
Lemma log_utf8_appends_witness :
  Z.of_nat (length (memory (ctx hello_state))) <= MAX_SAFE_INTEGER
  /\ 0 <= 0 /\ 0 <= 5 /\ 0 + 5 <= Z.of_nat (length (memory (ctx hello_state)))
  /\ log_utf8 (platform := ascii_platform) 5 0 hello_state
     = (Normal tt, with_ctx (with_logs ["hello"] (ctx hello_state)) hello_state).
Proof.
  assert (H1 : Z.of_nat (length (memory (ctx hello_state))) <= MAX_SAFE_INTEGER)
    by (cbn; unfold MAX_SAFE_INTEGER; lia).
  assert (H2 : 0 <= 0) by lia.
  assert (H3 : 0 <= 5) by lia.
  assert (H4 : 0 + 5 <= Z.of_nat (length (memory (ctx hello_state)))) by (cbn; lia).
  refine (conj H1 (conj H2 (conj H3 (conj H4 _)))).
  rewrite (log_utf8_appends (platform := ascii_platform) hello_state 5 0 H1 H2 H3 H4).
  reflexivity.
Defined.

(** [abort(0, 10, 10, 2)] on a memory holding [oops] and [a.ts]. *)
Lemma abort_message_witness :
  Z.even (Z.of_nat (length (memory (ctx abort_state)))) = true
  /\ 0 <= 0 <= MAX_SAFE_INTEGER /\ Z.even 0 = true
  /\ 0 <= 10 <= MAX_SAFE_INTEGER /\ Z.even 10 = true
  /\ abort (platform := ascii_platform) 0 10 10 2 abort_state
     = (Throw (mkException Error "abort: oops a.ts:10:2"), abort_state).
Proof.
  assert (H1 : Z.even (Z.of_nat (length (memory (ctx abort_state)))) = true) by reflexivity.
  assert (H2 : 0 <= 0 <= MAX_SAFE_INTEGER) by (unfold MAX_SAFE_INTEGER; lia).
  assert (H3 : Z.even 0 = true) by reflexivity.
  assert (H4 : 0 <= 10 <= MAX_SAFE_INTEGER) by (unfold MAX_SAFE_INTEGER; lia).
  assert (H5 : Z.even 10 = true) by reflexivity.
  refine (conj H1 (conj H2 (conj H3 (conj H4 (conj H5 _))))).
  rewrite (abort_message (platform := ascii_platform) abort_state 0 10 10 2
             [x6f; x00; x6f; x00; x70; x00; x73; x00]
             [x61; x00; x2e; x00; x74; x00; x73; x00]
             [x61; x00; x2e; x00; x74; x00; x73; x00; x00; x00] []
             H1 H2 H3 H4 H5 eq_refl eq_refl eq_refl eq_refl).
  vm_compute. reflexivity.
Defined.

(** [input(0)] and [read_register(0, 3)]: the arguments [{}] land at
    offset 3. *)
Lemma input_round_trip_witness :
  Z.of_nat (length (memory (ctx hello_state))) <= MAX_SAFE_INTEGER
  /\ 0 <= 3
  /\ 3 + Z.of_nat (length (methodArgs (ctx hello_state)))
     <= Z.of_nat (length (memory (ctx hello_state)))
  /\ register_len 0 (input (platform := ascii_platform) 0 hello_state).2
     = (Normal 2, (input (platform := ascii_platform) 0 hello_state).2)
  /\ take 2 (drop 3 (memory (ctx (read_register (platform := ascii_platform) 0 3
                                    (input (platform := ascii_platform) 0 hello_state).2).2)))
     = String.list_byte_of_string "{}".
Proof.
  assert (H1 : Z.of_nat (length (memory (ctx hello_state))) <= MAX_SAFE_INTEGER)
    by (cbn; unfold MAX_SAFE_INTEGER; lia).
  assert (H2 : 0 <= 3) by lia.
  assert (H3 : 3 + Z.of_nat (length (methodArgs (ctx hello_state)))
               <= Z.of_nat (length (memory (ctx hello_state)))) by (cbn; lia).
  destruct (input_round_trip (platform := ascii_platform) hello_state 0 3)
    as (_ & Hlen & _ & Hcopy).
  destruct (Hcopy H1 H2 H3) as (_ & Hbytes & _).
  exact (conj H1 (conj H2 (conj H3 (conj Hlen Hbytes)))).
Defined.

(** [value_return(5, 0)] on a memory that starts with [hello]. *)
Lemma value_return_in_bounds_witness :
  Z.of_nat (length (memory (ctx hello_state))) <= MAX_SAFE_INTEGER
  /\ 0 <= 0 /\ 0 <= 5 /\ 0 + 5 <= Z.of_nat (length (memory (ctx hello_state)))
  /\ result (ctx (value_return (platform := ascii_platform) 5 0 hello_state).2)
     = Some (String.list_byte_of_string "hello").
Proof.
  assert (H1 : Z.of_nat (length (memory (ctx hello_state))) <= MAX_SAFE_INTEGER)
    by (cbn; unfold MAX_SAFE_INTEGER; lia).
  assert (H2 : 0 <= 0) by lia.
  assert (H3 : 0 <= 5) by lia.
  assert (H4 : 0 + 5 <= Z.of_nat (length (memory (ctx hello_state)))) by (cbn; lia).
  destruct (value_return_in_bounds (platform := ascii_platform) hello_state 5 0 H1 H2 H3 H4)
    as (_ & Hresult & _).
  exact (conj H1 (conj H2 (conj H3 (conj H4 Hresult)))).
Defined.

(** [storage_read(1, 0, 7)] when the port never has a reply. *)
Lemma storage_read_unanswered_spins_witness :
  Z.of_nat (length (memory (ctx hello_state))) <= MAX_SAFE_INTEGER
  /\ 0 <= 0 /\ 0 <= 1 /\ 0 + 1 <= Z.of_nat (length (memory (ctx hello_state)))
  /\ Forall (fun poll : Poll => poll = None) (port hello_state)
  /\ (storage_read (platform := ascii_platform) 1 0 7 hello_state).1 = Diverge.
Proof.
  assert (H1 : Z.of_nat (length (memory (ctx hello_state))) <= MAX_SAFE_INTEGER)
    by (cbn; unfold MAX_SAFE_INTEGER; lia).
  assert (H2 : 0 <= 0) by lia.
  assert (H3 : 0 <= 1) by lia.
  assert (H4 : 0 + 1 <= Z.of_nat (length (memory (ctx hello_state)))) by (cbn; lia).
  assert (H5 : Forall (fun poll : Poll => poll = None) (port hello_state))
    by (apply Forall_nil_2).
  refine (conj H1 (conj H2 (conj H3 (conj H4 (conj H5 _))))).
  rewrite (storage_read_unanswered_spins (platform := ascii_platform) hello_state 1 0 7
             H1 H2 H3 H4 H5).
  reflexivity.
Defined.

(** The promise of the served pool stays resolved when a second call is
    made, a timer fires and the worker exits. *)
Lemma settled_stays_settled_witness :
  promises served_pool !! 0%nat
  = Some (Resolved (String.list_byte_of_string "v") (Some ["hello"]))
  /\ promises (step (client := one_value_client) None (WorkerExit 0%nat 1)
                 (step (client := one_value_client) None (TimerFires 1%nat)
                    (step (client := one_value_client) None (Submit hello_task)
                       served_pool))) !! 0%nat
     = Some (Resolved (String.list_byte_of_string "v") (Some ["hello"])).
Proof.
  assert (H1 : promises served_pool !! 0%nat
               = Some (Resolved (String.list_byte_of_string "v") (Some ["hello"])))
    by reflexivity.
  refine (conj H1 _).
  exact (settled_stays_settled (client := one_value_client) None
           [Submit hello_task; TimerFires 1%nat; WorkerExit 0%nat 1] served_pool 0%nat _ H1).
Defined.

(** The worker of the busy pool reports a failure. *)
Lemma failure_message_rejects_witness :
  kTaskInfo busy_pool !! 0%nat = Some (mkTaskInfo 0%nat 10 "alice.test" "main" 0%nat false)
  /\ promises busy_pool !! 0%nat = None
  /\ promises (on_worker_message (client := one_value_client) None 0%nat
                 (mkMessage None None (Some (mkException Error "unreachable")) None None)
                 busy_pool) !! 0%nat
     = Some (Rejected (mkException Error "unreachable")).
Proof.
  assert (H1 : kTaskInfo busy_pool !! 0%nat
               = Some (mkTaskInfo 0%nat 10 "alice.test" "main" 0%nat false)) by reflexivity.
  assert (H2 : promises busy_pool !! 0%nat = None) by reflexivity.
  refine (conj H1 (conj H2 _)).
  exact (proj1 (failure_message_rejects (client := one_value_client) None busy_pool 0%nat _
                  (mkException Error "unreachable") H1 H2)).
Defined.

(** The worker of the busy pool reports a result. *)
Lemma result_message_resolves_witness :
  kTaskInfo busy_pool !! 0%nat = Some (mkTaskInfo 0%nat 10 "alice.test" "main" 0%nat false)
  /\ promises busy_pool !! 0%nat = None
  /\ promises (on_worker_message (client := one_value_client) None 0%nat
                 (mkMessage (Some [x76]) (Some ["hello"]) None None None)
                 busy_pool) !! 0%nat
     = Some (Resolved [x76] (Some ["hello"])).
Proof.
  assert (H1 : kTaskInfo busy_pool !! 0%nat
               = Some (mkTaskInfo 0%nat 10 "alice.test" "main" 0%nat false)) by reflexivity.
  assert (H2 : promises busy_pool !! 0%nat = None) by reflexivity.
  refine (conj H1 (conj H2 _)).
  exact (proj1 (result_message_resolves (client := one_value_client) None busy_pool 0%nat _
                  [x76] ["hello"] H1 H2)).
Defined.

(** The worker of the busy pool crashes. *)
Lemma crash_rejects_and_replaces_witness :
  reachable (client := one_value_client) None busy_pool
  /\ (0 < constructed busy_pool)%nat
  /\ kTaskInfo busy_pool !! 0%nat = Some (mkTaskInfo 0%nat 10 "alice.test" "main" 0%nat false)
  /\ promises busy_pool !! 0%nat = None
  /\ promises (on_worker_error None 0%nat (mkException Error "out of memory") busy_pool)
       !! 0%nat
     = Some (Rejected (mkException Error "out of memory"))
  /\ 1%nat ∈ workers (on_worker_error None 0%nat (mkException Error "out of memory")
                        busy_pool).
Proof.
  assert (H1 : reachable (client := one_value_client) None busy_pool).
  { exact (reachable_step None idle_pool (Submit hello_task) (reachable_new None 1) I). }
  assert (H2 : (0 < constructed busy_pool)%nat) by (vm_compute; lia).
  assert (H3 : kTaskInfo busy_pool !! 0%nat
               = Some (mkTaskInfo 0%nat 10 "alice.test" "main" 0%nat false)) by reflexivity.
  assert (H4 : promises busy_pool !! 0%nat = None) by reflexivity.
  destruct (crash_rejects_and_replaces (client := one_value_client) None busy_pool 0%nat
              (mkException Error "out of memory") _ H1 H2 H3 eq_refl H4)
    as (Hrejected & Hnew & _).
  exact (conj H1 (conj H2 (conj H3 (conj H4 (conj Hrejected Hnew))))).
Defined.

(** The worker of the idle pool crashes and nothing listens to 'error'. *)
Lemma idle_crash_witness :
  reachable (client := one_value_client) None idle_pool
  /\ (0 < constructed idle_pool)%nat
  /\ kTaskInfo idle_pool !! 0%nat = None
  /\ uncaught (on_worker_error None 0%nat (mkException Error "out of memory") idle_pool)
     = uncaught idle_pool ++ [mkException Error "out of memory"]
  /\ workers (on_worker_error None 0%nat (mkException Error "out of memory") idle_pool)
     = workers idle_pool.
Proof.
  assert (H1 : reachable (client := one_value_client) None idle_pool)
    by exact (reachable_new None 1).
  assert (H2 : (0 < constructed idle_pool)%nat) by (vm_compute; lia).
  assert (H3 : kTaskInfo idle_pool !! 0%nat = None) by reflexivity.
  destruct (idle_crash (client := one_value_client) None idle_pool 0%nat
              (mkException Error "out of memory") H1 H2 H3)
    as (_ & Hrest).
  change (error_listener idle_pool) with false in Hrest.
  destruct Hrest as (Hu & _ & Hw & _).
  exact (conj H1 (conj H2 (conj H3 (conj Hu Hw)))).
Defined.

(** The worker of the busy pool crashes and then exits with code 1. *)
Lemma error_then_exit_drops_the_replacement_witness :
  reachable (client := one_value_client) None busy_pool
  /\ 0%nat ∈ workers busy_pool
  /\ is_Some (kTaskInfo busy_pool !! 0%nat)
  /\ 1%nat ∈ workers (on_worker_error None 0%nat (mkException Error "out of memory")
                        busy_pool)
  /\ (1%nat ∉ workers (on_worker_exit None 0%nat 1
                         (on_worker_error None 0%nat (mkException Error "out of memory")
                            busy_pool)))
  /\ (1%nat ∉ terminated (on_worker_exit None 0%nat 1
                            (on_worker_error None 0%nat (mkException Error "out of memory")
                               busy_pool))).
Proof.
  assert (H1 : reachable (client := one_value_client) None busy_pool).
  { exact (reachable_step None idle_pool (Submit hello_task) (reachable_new None 1) I). }
  assert (H2 : 0%nat ∈ workers busy_pool) by (vm_compute; left).
  assert (H3 : is_Some (kTaskInfo busy_pool !! 0%nat)) by (eexists; reflexivity).
  destruct (error_then_exit_drops_the_replacement (client := one_value_client) None busy_pool
              0%nat (mkException Error "out of memory") 1 H1 H2 H3)
    as (Hin & Hout & Hlive & _).
  exact (conj H1 (conj H2 (conj H3 (conj Hin (conj Hout Hlive))))).
Defined.

(** A pool of one worker: the first call is posted, the second waits. *)
Lemma pool_capacity_witness :
  length [hello_task] = 1%nat
  /\ to_worker (submit_all None [hello_task] (new None 1)) = [(0%nat, PostTask hello_task)]
  /\ freed_listeners (runContract None hello_task
                        (submit_all None [hello_task] (new None 1))).2
     = [(hello_task, 1%nat)].
Proof.
  assert (H1 : length [hello_task] = 1%nat) by reflexivity.
  destruct (pool_capacity None 1 [hello_task] hello_task H1)
    as (_ & _ & _ & _ & Hposted & _ & _ & _ & Hwaiting).
  exact (conj H1 (conj Hposted Hwaiting)).
Defined.

(** The worker of the waiting pool finishes its call and is given the
    call that waits. *)
Lemma completion_serves_first_waiting_witness :
  kTaskInfo waiting_pool !! 0%nat
  = Some (mkTaskInfo 0%nat 10 "alice.test" "main" 0%nat false)
  /\ freeWorkers waiting_pool = []
  /\ freed_listeners waiting_pool = [(hello_task, 1%nat)]
  /\ to_worker (on_worker_message (client := one_value_client) None 0%nat
                  (mkMessage (Some [x76]) (Some ["hello"]) None None None) waiting_pool)
     = to_worker waiting_pool ++ [(0%nat, PostTask hello_task)]
  /\ freed_listeners (on_worker_message (client := one_value_client) None 0%nat
                        (mkMessage (Some [x76]) (Some ["hello"]) None None None)
                        waiting_pool)
     = [].
Proof.
  assert (H1 : kTaskInfo waiting_pool !! 0%nat
               = Some (mkTaskInfo 0%nat 10 "alice.test" "main" 0%nat false)) by reflexivity.
  assert (H2 : freeWorkers waiting_pool = []) by reflexivity.
  assert (H3 : freed_listeners waiting_pool = [(hello_task, 1%nat)]) by reflexivity.
  destruct (completion_serves_first_waiting (client := one_value_client) None waiting_pool
              0%nat _ (mkMessage (Some [x76]) (Some ["hello"]) None None None)
              hello_task 1%nat [] H1 H2 H3 eq_refl)
    as (Hposted & _ & _ & _ & Hwaiting).
  exact (conj H1 (conj H2 (conj H3 (conj Hposted Hwaiting)))).
Defined.

(** The worker of the busy pool finishes its call: timer 0 is cleared. *)
Lemma completion_clears_timer_witness :
  reachable (client := one_value_client) None busy_pool
  /\ kTaskInfo busy_pool !! 0%nat = Some (mkTaskInfo 0%nat 10 "alice.test" "main" 0%nat false)
  /\ timers (on_worker_message (client := one_value_client) None 0%nat
               (mkMessage (Some [x76]) (Some ["hello"]) None None None) busy_pool) !! 0%nat
     = None.
Proof.
  assert (H1 : reachable (client := one_value_client) None busy_pool).
  { exact (reachable_step None idle_pool (Submit hello_task) (reachable_new None 1) I). }
  assert (H2 : kTaskInfo busy_pool !! 0%nat
               = Some (mkTaskInfo 0%nat 10 "alice.test" "main" 0%nat false)) by reflexivity.
  refine (conj H1 (conj H2 _)).
  exact (proj1 (completion_clears_timer (client := one_value_client) None busy_pool 0%nat _
                  (mkMessage (Some [x76]) (Some ["hello"]) None None None) H1 H2 eq_refl)).
Defined.

(** The busy pool has its one worker. *)
Lemma pool_size_is_kept_witness :
  reachable (client := one_value_client) None busy_pool
  /\ length (workers busy_pool) = numThreads busy_pool.
Proof.
  assert (H1 : reachable (client := one_value_client) None busy_pool).
  { exact (reachable_step None idle_pool (Submit hello_task) (reachable_new None 1) I). }
  refine (conj H1 _).
  exact (proj1 (pool_size_is_kept (client := one_value_client) None busy_pool H1)).
Defined.

(** The free worker of the listening pool crashes. *)
Lemma crashed_idle_worker_stays_free_witness :
  reachable (client := one_value_client) None listening_pool
  /\ 0%nat ∈ workers listening_pool
  /\ 0%nat ∈ freeWorkers listening_pool
  /\ kTaskInfo listening_pool !! 0%nat = None
  /\ error_listener listening_pool = true
  /\ freed_listeners listening_pool = []
  /\ freeWorkers (on_worker_error None 0%nat (mkException Error "out of memory")
                    listening_pool)
     = [0%nat; 1%nat]
  /\ (0%nat ∉ workers (on_worker_error None 0%nat (mkException Error "out of memory")
                         listening_pool)).
Proof.
  assert (H1 : reachable (client := one_value_client) None listening_pool).
  { exact (reachable_step None idle_pool ListenError (reachable_new None 1) I). }
  assert (H2 : 0%nat ∈ workers listening_pool) by (vm_compute; left).
  assert (H3 : 0%nat ∈ freeWorkers listening_pool) by (vm_compute; left).
  assert (H4 : kTaskInfo listening_pool !! 0%nat = None) by reflexivity.
  assert (H5 : error_listener listening_pool = true) by reflexivity.
  assert (H6 : freed_listeners listening_pool = []) by reflexivity.
  destruct (crashed_idle_worker_stays_free (client := one_value_client) None listening_pool
              0%nat (mkException Error "out of memory") H1 H2 H3 H4 H5 H6)
    as (Hfree & Habsent & _).
  exact (conj H1 (conj H2 (conj H3 (conj H4 (conj H5 (conj H6 (conj Hfree Habsent))))))).
Defined.
